(** * TKTM: a quiz on two-variable linear systems (src/app.py)

    The program draws a random system
        a x + b y = c
        d x + e y = f
    around a solution chosen first, shows it, and judges the answer typed by
    the user.  This development embeds [generate_equation_system], the
    handler of the judgment button and the page script around them, and
    proves the properties the specification states about them, then further
    properties read off the code. *)

From Stdlib Require Import ZArith List String Ascii Bool Lia.
From Stdlib Require Import Decimal DecimalString Floats Reals Lra.
Import ListNotations.

Local Open Scope Z_scope.

(** ** The world the generator runs in

    [random] is a global generator: every call of [random.randint] consumes
    the next raw output.  The raw outputs are given as an infinite sequence
    [rng]; [cursor] counts how many have been consumed.  [warnings] is the
    sink behind [st.warning]. *)

Record world : Type := mkWorld {
  rng      : nat -> Z;
  cursor   : nat;
  warnings : list string
}.

Definition init (src : nat -> Z) : world :=
  {| rng := src; cursor := 0; warnings := [] |}.

(** A computation either returns a value and the next world, or is still
    running when its loop budget is spent ([None]). *)
Definition M (A : Type) : Type := world -> option (A * world).

Definition ret {A} (a : A) : M A := fun w => Some (a, w).

Definition bind {A B} (m : M A) (k : A -> M B) : M B :=
  fun w => match m w with
           | Some (a, w') => k a w'
           | None => None
           end.

Definition spinning {A} : M A := fun _ => None.

Notation "x <- m ;; k" := (bind m (fun x => k))
  (at level 61, m at next level, right associativity).
Notation "m ;;; k" := (bind m (fun _ => k))
  (at level 61, right associativity).

(** The world after one more raw output has been consumed. *)
Definition advance (w : world) : world :=
  {| rng := rng w; cursor := S (cursor w); warnings := warnings w |}.

Module random.

(** [randbelow n]: a value of [0, n) taken from the next raw output. *)
Definition randbelow (n : Z) : M Z :=
  fun w => Some (rng w (cursor w) mod n, advance w).

(** [random.randint(a, b)] is [a + randbelow(b - a + 1)]: an integer of
    the inclusive range [a, b]. *)
Definition randint (a b : Z) : M Z :=
  r <- randbelow (b - a + 1) ;; ret (a + r).

End random.

Module st.

Definition warning (msg : string) : M unit :=
  fun w => Some (tt, {| rng := rng w; cursor := cursor w;
                        warnings := warnings w ++ [msg] |}).

End st.

(** ** The generated problem *)

Record EquationSystem : Type := mkSystem {
  eq1_coeffs : Z * Z;
  eq1_const  : Z;
  eq2_coeffs : Z * Z;
  eq2_const  : Z;
  solution_x : Z;
  solution_y : Z
}.

Definition determinant_of (p : EquationSystem) : Z :=
  fst (eq1_coeffs p) * snd (eq2_coeffs p)
  - snd (eq1_coeffs p) * fst (eq2_coeffs p).

Definition max_iter : nat := 100.

Definition generation_failed : string :=
  "適切な連立方程式の生成に失敗しました。新しい問題を試してみてください。".

(** [while a == 0 and b == 0: a = random.randint(-5, 5)].  The condition is
    tested first, so a loop that has nothing to repair needs no budget. *)
Fixpoint redraw_a (fuel : nat) (a b : Z) : M Z :=
  if (a =? 0) && (b =? 0) then
    match fuel with
    | O => spinning
    | S fuel' => a' <- random.randint (-5) 5 ;; redraw_a fuel' a' b
    end
  else ret a.

(** [while d == 0 and e == 0: e = random.randint(-5, 5)]. *)
Fixpoint redraw_e (fuel : nat) (d e : Z) : M Z :=
  if (d =? 0) && (e =? 0) then
    match fuel with
    | O => spinning
    | S fuel' => e' <- random.randint (-5) 5 ;; redraw_e fuel' d e'
    end
  else ret e.

(** One pass through the body of the [for] loop: [Some p] when the pass
    reaches [return], [None] when the determinant is zero and the loop goes
    on. *)
Definition attempt (fuel : nat) : M (option EquationSystem) :=
  a <- random.randint (-5) 5 ;;
  b <- random.randint (-5) 5 ;;
  d <- random.randint (-5) 5 ;;
  e <- random.randint (-5) 5 ;;
  a <- redraw_a fuel a b ;;
  e <- redraw_e fuel d e ;;
  x_sol <- random.randint (-10) 10 ;;
  y_sol <- random.randint (-10) 10 ;;
  let c := a * x_sol + b * y_sol in
  let f := d * x_sol + e * y_sol in
  let determinant := a * e - b * d in
  if negb (determinant =? 0) then
    ret (Some {| eq1_coeffs := (a, b); eq1_const := c;
                 eq2_coeffs := (d, e); eq2_const := f;
                 solution_x := x_sol; solution_y := y_sol |})
  else ret None.

(** [for _ in range(n)] followed by the failure exit. *)
Fixpoint attempts (n fuel : nat) : M (option EquationSystem) :=
  match n with
  | O => st.warning generation_failed ;;; ret None
  | S n' =>
      r <- attempt fuel ;;
      match r with
      | Some p => ret (Some p)
      | None => attempts n' fuel
      end
  end.

(** [fuel] bounds the number of turns of each repair loop; the [for] loop
    needs none. *)
Definition generate_equation_system (fuel : nat) : M (option EquationSystem) :=
  attempts max_iter fuel.

(** Sources used in examples: [cycle l] repeats the raw outputs [l]. *)
Definition cycle (l : list Z) : nat -> Z :=
  fun i => nth (i mod List.length l)%nat l 0.

Definition result_of {A} (r : option (A * world)) : option A :=
  option_map fst r.

(** ** The judgment of an answer

    The handler of the judgment button runs a [try] block that catches
    [ValueError] only; any other exception leaves the handler. *)

Inductive exn : Type := ValueError | NameError | OverflowError.

Inductive res (A : Type) : Type :=
| Ok (a : A)
| Raise (e : exn).
Arguments Ok {A} a.
Arguments Raise {A} e.

Definition res_bind {A B} (m : res A) (k : A -> res B) : res B :=
  match m with
  | Ok a => k a
  | Raise e => Raise e
  end.

Notation "x <~ m ;; k" := (res_bind m (fun x => k))
  (at level 61, m at next level, right associativity).

(** The dictionary stored in [st.session_state.result]. *)
Record JudgmentResult : Type := mkResult {
  type    : string;
  message : string
}.

(** [str(n)] for an integer [n]. *)
Definition str (n : Z) : string := NilZero.string_of_int (Z.to_int n).

Definition enter_both : JudgmentResult :=
  {| type := "warning"; message := "x と y の両方を入力してください。" |}.

Definition correct (p : EquationSystem) : JudgmentResult :=
  {| type := "success";
     message := "正解です！ (x=" ++ str (solution_x p)
                ++ ", y=" ++ str (solution_y p) ++ ")" |}.

Definition incorrect : JudgmentResult :=
  {| type := "error"; message := "不正解です。もう一度考えてみましょう。" |}.

Definition enter_numbers : JudgmentResult :=
  {| type := "error"; message := "数字を正しく入力してください。" |}.

(** The literal [1e-9]: the binary64 value nearest to 10^-9. *)
Definition tolerance : float := 0x1.12e0be826d695p-30%float.

(** An [int] operand of a float subtraction is converted to the nearest
    binary64 value; an [int] too large for that raises [OverflowError]. *)
Definition float_of_int (n : Z) : res float :=
  match binary_normalize prec emax n 0 false with
  | S754_infinity _ => Raise OverflowError
  | sf => Ok (SF2Prim sf)
  end.

(** [abs(user - solution) < 1e-9] *)
Definition close_to (user : float) (solution : Z) : res bool :=
  s <~ float_of_int solution ;;
  Ok (PrimFloat.ltb (PrimFloat.abs (PrimFloat.sub user s)) tolerance).

Section Judgment.

(** The builtin [float] on a string: [None] stands for [ValueError]. *)
Variable float_of_str : string -> option float.

Definition to_float (s : string) : res float :=
  match float_of_str s with
  | Some f => Ok f
  | None => Raise ValueError
  end.

(** [not s] for a string [s] *)
Definition blank (s : string) : bool :=
  match s with
  | EmptyString => true
  | String _ _ => false
  end.

(** [prob] is bound only when a problem is stored. *)
Definition lookup_prob (problem : option EquationSystem) : res EquationSystem :=
  match problem with
  | Some prob => Ok prob
  | None => Raise NameError
  end.

(** The body of the [try] block. *)
Definition judgment_body (problem : option EquationSystem)
    (user_x_input user_y_input : string) : res JudgmentResult :=
  if blank user_x_input || blank user_y_input then Ok enter_both
  else
    user_x <~ to_float user_x_input ;;
    user_y <~ to_float user_y_input ;;
    prob <~ lookup_prob problem ;;
    near_x <~ close_to user_x (solution_x prob) ;;
    near <~ (if near_x then close_to user_y (solution_y prob) else Ok false) ;;
    if near then Ok (correct prob) else Ok incorrect.

(** [try: ... except ValueError: ...] *)
Definition judgment (problem : option EquationSystem)
    (user_x_input user_y_input : string) : res JudgmentResult :=
  match judgment_body problem user_x_input user_y_input with
  | Raise ValueError => Ok enter_numbers
  | r => r
  end.

End Judgment.

(** ** A reading of [float] on plain decimal numerals

    The theorems below hold for any [float_of_str].  To run the handler on
    concrete text, [decimal] reads the numerals [[+-]digits[.digits]] (the
    fragment of what the builtin accepts that the scenarios use) and rounds
    the quotient [mantissa / 10^k] to the nearest binary64 value. *)
Module decimal.

Definition digit (c : ascii) : option Z :=
  let n := Z.of_N (N_of_ascii c) in
  if (48 <=? n) && (n <=? 57) then Some (n - 48) else None.

(** Reads a run of digits after the value [acc]: the new value, the
    number of digits read and the text left. *)
Fixpoint digits (s : string) (acc : Z) (n : nat) : Z * nat * string :=
  match s with
  | String c s' =>
      match digit c with
      | Some d => digits s' (10 * acc + d) (S n)
      | None => (acc, n, s)
      end
  | EmptyString => (acc, n, s)
  end.

(** The mantissa and the number of digits after the point. *)
Definition unsigned (s : string) : option (Z * nat) :=
  let '(i, ni, r) := digits s 0 0 in
  match r with
  | EmptyString => if (ni =? 0)%nat then None else Some (i, O)
  | String "."%char r' =>
      let '(m, nf, r'') := digits r' i 0 in
      match r'' with
      | EmptyString => if (ni + nf =? 0)%nat then None else Some (m, nf)
      | String _ _ => None
      end
  | String _ _ => None
  end.

Definition signed (s : string) : bool * string :=
  match s with
  | String "-"%char r => (true, r)
  | String "+"%char r => (false, r)
  | _ => (false, s)
  end.

Definition float_of_str (s : string) : option float :=
  let (neg, body) := signed s in
  match unsigned body with
  | None => None
  | Some (Zpos m, k) =>
      Some (SF2Prim (SFdiv prec emax
                       (S754_finite neg m 0)
                       (S754_finite false (Z.to_pos (10 ^ Z.of_nat k)) 0)))
  | Some (_, _) => Some (SF2Prim (S754_zero neg))
  end.

End decimal.

(** ** What the specification states about a problem *)

(** [(x, y)] solves both equations of [p]. *)
Definition satisfies (p : EquationSystem) (x y : Z) : Prop :=
  fst (eq1_coeffs p) * x + snd (eq1_coeffs p) * y = eq1_const p /\
  fst (eq2_coeffs p) * x + snd (eq2_coeffs p) * y = eq2_const p.

Definition coefficient (v : Z) : Prop := -5 <= v <= 5.
Definition solution_value (v : Z) : Prop := -10 <= v <= 10.

(** What one returning pass of the loop body establishes. *)
Record drawn (p : EquationSystem) : Prop := mkDrawn {
  drawn_a : coefficient (fst (eq1_coeffs p));
  drawn_b : coefficient (snd (eq1_coeffs p));
  drawn_d : coefficient (fst (eq2_coeffs p));
  drawn_e : coefficient (snd (eq2_coeffs p));
  drawn_x : solution_value (solution_x p);
  drawn_y : solution_value (solution_y p);
  drawn_eq1 : fst (eq1_coeffs p) <> 0 \/ snd (eq1_coeffs p) <> 0;
  drawn_eq2 : fst (eq2_coeffs p) <> 0 \/ snd (eq2_coeffs p) <> 0;
  drawn_consts : satisfies p (solution_x p) (solution_y p);
  drawn_det : determinant_of p <> 0
}.

(** [n] passes in a row, each ending with a zero determinant. *)
Inductive rejected (fuel : nat) : nat -> world -> world -> Prop :=
| rejected_none w : rejected fuel 0 w w
| rejected_more n w w1 w2 :
    attempt fuel w = Some (None, w1) ->
    rejected fuel n w1 w2 ->
    rejected fuel (S n) w w2.

(** The source never stays at zero for good: after every position some
    draw from [-5, 5] is not zero. *)
Definition recurrent (src : nat -> Z) : Prop :=
  forall i : nat, exists j : nat, (i <= j)%nat /\ -5 + src j mod 11 <> 0.

(** The same over the reals, where the two equations are lines. *)
Definition satisfies_R (p : EquationSystem) (x y : R) : Prop :=
  (IZR (fst (eq1_coeffs p)) * x + IZR (snd (eq1_coeffs p)) * y
   = IZR (eq1_const p))%R /\
  (IZR (fst (eq2_coeffs p)) * x + IZR (snd (eq2_coeffs p)) * y
   = IZR (eq2_const p))%R.

(** The problem of the specification's scenario and a source that
    produces it at the first pass. *)
Definition scenario : EquationSystem :=
  {| eq1_coeffs := (2, 3); eq1_const := 11;
     eq2_coeffs := (1, -1); eq2_const := 3;
     solution_x := 4; solution_y := 1 |}.

Definition scenario_source : nat -> Z := cycle [7; 8; 6; 4; 14; 11].

Definition scenario_end : world :=
  {| rng := scenario_source; cursor := 6; warnings := [] |}.

(** The world after the failure warning. *)
Definition warned (w : world) : world :=
  {| rng := rng w; cursor := cursor w;
     warnings := warnings w ++ [generation_failed] |}.

(** A run that stays within the retry cap: fewer than [max_iter] rejected
    passes and then a returning one, or [max_iter] rejected passes and then
    the failure exit. *)
Definition within_cap (fuel : nat) (w : world)
    (r : option EquationSystem) (w' : world) : Prop :=
  (exists k w1 p, (k < max_iter)%nat /\ rejected fuel k w w1 /\
                  attempt fuel w1 = Some (Some p, w') /\ r = Some p) \/
  (exists w1, rejected fuel max_iter w w1 /\ r = None /\ w' = warned w1).

(** Every draw from [-5, 5] is 0. *)
Definition stuck_source : nat -> Z := fun _ => 5.

(** Every draw from [-5, 5] is 1: all coefficients equal, determinant 0. *)
Definition flat_source : nat -> Z := fun _ => 6.

(** Where [flat_source] leaves the world after [max_iter] rejected passes
    of six draws each. *)
Definition flat_end : world :=
  {| rng := flat_source; cursor := 600; warnings := [] |}.

(** The binary64 value of a small integer, and the comparison the handler
    makes with it: [|user - solution| < 1e-9], all three operations on
    binary64 values. *)
Definition float_of_Z (n : Z) : float :=
  SF2Prim (binary_normalize prec emax n 0 false).

Definition within_tolerance (user : float) (solution : Z) : Prop :=
  PrimFloat.ltb (PrimFloat.abs (PrimFloat.sub user (float_of_Z solution)))
                tolerance = true.

(** A stored problem whose solution has [x = 0]. *)
Definition origin_x : EquationSystem :=
  {| eq1_coeffs := (2, 3); eq1_const := 3;
     eq2_coeffs := (1, -1); eq2_const := -1;
     solution_x := 0; solution_y := 1 |}.

(** ** The page script

    Streamlit runs the whole script once per interaction.  One run is
    modelled as a function of what the widgets return in that run (the two
    texts and the two buttons) on the state that survives between runs:
    [st.session_state], the random generator and what has been shown. *)

(** [st.session_state]: a key that has never been assigned is absent
    ([None]); reading it as an attribute raises [AttributeError]. *)
Record session_state : Type := mkSession {
  problem : option (option EquationSystem);
  result  : option (option JudgmentResult);
  user_x  : option string;
  user_y  : option string
}.

Definition empty_session : session_state :=
  {| problem := None; result := None; user_x := None; user_y := None |}.

(** What the display calls put on the page, [st.warning] apart, which has
    its sink in the world. *)
Inductive element : Type :=
| PageConfig (layout page_title : string)
| Title (body : string)
| Markdown (body : string)
| Subheader (body : string)
| Latex (body : string)
| ErrorBox (body : string)
| SuccessBox (body : string)
| TextInput (label value key : string)
| Button (label : string)
| Text (body : string).

Record app : Type := mkApp {
  env     : world;
  session : session_state;
  page    : list element
}.

(** How a run can stop before the end of the script. *)
Inductive halt : Type :=
| Rerun
| AttributeError (key : string)
| Uncaught (e : exn).

Inductive outcome (A : Type) : Type :=
| Next (a : A)
| Halt (h : halt).
Arguments Next {A} a.
Arguments Halt {A} h.

(** A piece of the script: [None] while a repair loop is still running. *)
Definition P (A : Type) : Type := app -> option (outcome A * app).

Definition pret {A} (a : A) : P A := fun s => Some (Next a, s).

Definition pbind {A B} (m : P A) (k : A -> P B) : P B :=
  fun s => match m s with
           | Some (Next a, s') => k a s'
           | Some (Halt h, s') => Some (Halt h, s')
           | None => None
           end.

Notation "x <<- m ;; k" := (pbind m (fun x => k))
  (at level 61, m at next level, right associativity).
Notation "m >>> k" := (pbind m (fun _ => k))
  (at level 61, right associativity).

Definition stop {A} (h : halt) : P A := fun s => Some (Halt h, s).

(** A computation of the generator's world, run inside the script. *)
Definition lift {A} (m : M A) : P A :=
  fun s => match m (env s) with
           | Some (a, w') =>
               Some (Next a, {| env := w'; session := session s;
                                page := page s |})
           | None => None
           end.

Definition emit (e : element) : P unit :=
  fun s => Some (Next tt, {| env := env s; session := session s;
                             page := page s ++ [e] |}).

Definition update (f : session_state -> session_state) : P unit :=
  fun s => Some (Next tt, {| env := env s; session := f (session s);
                             page := page s |}).

(** Reading [st.session_state.<key>]. *)
Definition attribute {A} (key : string) (get : session_state -> option A) : P A :=
  fun s => match get (session s) with
           | Some v => Some (Next v, s)
           | None => Some (Halt (AttributeError key), s)
           end.

Definition set_problem (v : option EquationSystem) : P unit :=
  update (fun ss => {| problem := Some v; result := result ss;
                       user_x := user_x ss; user_y := user_y ss |}).

Definition set_result (v : option JudgmentResult) : P unit :=
  update (fun ss => {| problem := problem ss; result := Some v;
                       user_x := user_x ss; user_y := user_y ss |}).

Definition set_user_x (v : string) : P unit :=
  update (fun ss => {| problem := problem ss; result := result ss;
                       user_x := Some v; user_y := user_y ss |}).

Definition set_user_y (v : string) : P unit :=
  update (fun ss => {| problem := problem ss; result := result ss;
                       user_x := user_x ss; user_y := Some v |}).

Definition newline : string := String (ascii_of_nat 10) EmptyString.

Definition intro_text : string :=
  newline ++ "このアプリは、2変数の連立一次方程式をランダムに生成します。"
  ++ newline
  ++ "$x$と$y$の値を入力して、解答が正しいか確認してみましょう！"
  ++ newline.

Definition not_generated : string :=
  "問題が正しく生成されていません。「新しい問題」ボタンを押してください。".

Definition indent : string := "                ".

(** The f-string given to [st.latex]. *)
Definition cases_of (prob : EquationSystem) : string :=
  "\begin{cases}" ++ indent
  ++ str (fst (eq1_coeffs prob)) ++ "x + " ++ str (snd (eq1_coeffs prob))
  ++ "y = " ++ str (eq1_const prob) ++ " \\" ++ indent
  ++ str (fst (eq2_coeffs prob)) ++ "x + " ++ str (snd (eq2_coeffs prob))
  ++ "y = " ++ str (eq2_const prob) ++ " \\" ++ indent
  ++ "\end{cases}".

(** What the widgets return in one run. *)
Record widgets : Type := mkWidgets {
  user_x_input  : string;
  user_y_input  : string;
  judge_pressed : bool;
  new_pressed   : bool
}.

Section Script.

Variable float_of_str : string -> option float.
Variable fuel : nat.

(** [if 'problem' not in st.session_state or st.session_state.problem is
    None:] a new problem and a fresh result and input state. *)
Definition fresh_problem : P unit :=
  p <<- lift (generate_equation_system fuel) ;;
  set_problem p >>> set_result None >>> set_user_x "" >>> set_user_y "".

Definition initialise : P unit :=
  fun s => match problem (session s) with
           | Some (Some _) => pret tt s
           | Some None | None => fresh_problem s
           end.

(** The problem display; the value is what the name [prob] is bound to
    afterwards, if it is bound. *)
Definition show_problem : P (option EquationSystem) :=
  stored <<- attribute "problem" problem ;;
  match stored with
  | Some prob =>
      emit (Subheader "問題") >>> emit (Latex (cases_of prob)) >>>
      pret (Some prob)
  | None => emit (ErrorBox not_generated) >>> pret None
  end.

Definition answer_inputs : P unit :=
  emit (Subheader "解答を入力してください") >>>
  x <<- attribute "user_x" user_x ;;
  emit (TextInput "x の値:" x "user_x_input") >>>
  y <<- attribute "user_y" user_y ;;
  emit (TextInput "y の値:" y "user_y_input").

(** [if st.button("解答を判定"):] the [try] statement, then the two
    assignments that keep the typed texts. *)
Definition judge_button (prob : option EquationSystem) (w : widgets) : P unit :=
  emit (Button "解答を判定") >>>
  if judge_pressed w then
    match judgment float_of_str prob (user_x_input w) (user_y_input w) with
    | Ok r => set_result (Some r)
    | Raise e => stop (Uncaught e)
    end >>>
    set_user_x (user_x_input w) >>> set_user_y (user_y_input w)
  else pret tt.

(** [if st.button("新しい問題"):] ends with [st.rerun()], which stops the
    run. *)
Definition new_button (w : widgets) : P unit :=
  emit (Button "新しい問題") >>>
  if new_pressed w then
    p <<- lift (generate_equation_system fuel) ;;
    set_problem p >>> set_result None >>> set_user_x "" >>> set_user_y "" >>>
    stop Rerun
  else pret tt.

Definition show_result : P unit :=
  stored <<- attribute "result" result ;;
  match stored with
  | Some r =>
      if (type r =? "success")%string then emit (SuccessBox (message r))
      else if (type r =? "error")%string then emit (ErrorBox (message r))
      else if (type r =? "warning")%string then lift (st.warning (message r))
      else pret tt
  | None => pret tt
  end.

Definition script (w : widgets) : P unit :=
  emit (PageConfig "centered" "連立方程式アプリ") >>>
  emit (Title "🔢 連立方程式 問題アプリ") >>>
  emit (Markdown intro_text) >>>
  initialise >>>
  prob <<- show_problem ;;
  answer_inputs >>>
  judge_button prob w >>>
  new_button w >>>
  show_result >>>
  emit (Markdown "---") >>>
  emit (Text "Developed with Streamlit by Google Gemini").

End Script.

(** A first run: nothing stored, nothing shown, no button pressed. *)
Definition start (src : nat -> Z) : app :=
  {| env := init src; session := empty_session; page := [] |}.

Definition idle : widgets :=
  {| user_x_input := ""; user_y_input := ""; judge_pressed := false;
     new_pressed := false |}.

(** The draw from [lo, hi] that the generator makes [i] places ahead of
    the cursor, and the world after [n] draws. *)
Definition draw (lo hi : Z) (w : world) (i : nat) : Z :=
  lo + rng w (i + cursor w) mod (hi - lo + 1).

Definition skip (n : nat) (w : world) : world :=
  {| rng := rng w; cursor := n + cursor w; warnings := warnings w |}.

(** Sources and problems for the examples of the further properties. *)
Definition late_source : nat -> Z := cycle [5; 5; 7].

Definition integers_upto (bound : nat) : list Z :=
  map (fun i => Z.of_nat i - Z.of_nat bound) (seq 0 (2 * bound + 1)).

(** [float] on the decimal numerals and on the word [inf]. *)
Definition float_with_inf (s : string) : option float :=
  if (s =? "inf")%string then Some infinity else decimal.float_of_str s.

(** The four keys the script reads have been assigned. *)
Definition keys_present (ss : session_state) : Prop :=
  problem ss <> None /\ result ss <> None /\
  user_x ss <> None /\ user_y ss <> None.

(** The state in which the script may skip its initialisation has the
    four keys. *)
Definition coherent (ss : session_state) : Prop :=
  (exists p, problem ss = Some (Some p)) -> keys_present ss.

(** Between two runs the page is cleared; the session and the generator
    stay. *)
Definition fresh_page (s : app) : app :=
  {| env := env s; session := session s; page := [] |}.

(** The states a session can be in: the first run starts from nothing,
    and every run, however it ends, leaves the state the next one starts
    from. *)
Inductive reachable (f : string -> option float) : app -> Prop :=
| reach_start src : reachable f (start src)
| reach_run fuel w s o s' :
    reachable f s ->
    script f fuel w (fresh_page s) = Some (o, s') ->
    reachable f s'.

(** A piece of the script that keeps the four keys and never fails on a
    missing one. *)
Definition safe {A} (m : P A) : Prop :=
  forall s o s',
    keys_present (session s) -> m s = Some (o, s') ->
    keys_present (session s') /\ forall k, o <> Halt (AttributeError k).

(** A piece of the script that leaves the stored problem and the random
    generator alone. *)
Definition quiet {A} (m : P A) : Prop :=
  forall s o s',
    m s = Some (o, s') ->
    problem (session s') = problem (session s) /\
    rng (env s') = rng (env s) /\ cursor (env s') = cursor (env s).

(** The session once the scenario's problem is stored, and an answer to
    it. *)
Definition playing : app :=
  {| env := scenario_end;
     session := {| problem := Some (Some scenario); result := Some None;
                   user_x := Some ""%string; user_y := Some ""%string |};
     page := [] |}.

Definition answer (x y : string) : widgets :=
  {| user_x_input := x; user_y_input := y; judge_pressed := true;
     new_pressed := false |}.

(** The call that shows a result of each kind has been made with its
    message. *)
Definition shown (r : JudgmentResult) (s : app) : Prop :=
  (type r = "success"%string -> In (SuccessBox (message r)) (page s)) /\
  (type r = "error"%string -> In (ErrorBox (message r)) (page s)) /\
  (type r = "warning"%string -> In (message r) (warnings (env s))).

(** Pressing the new-problem button only. *)
Definition ask_new : widgets :=
  {| user_x_input := "4"; user_y_input := "1"; judge_pressed := false;
     new_pressed := true |}.

(** The session after a run in which generation failed. *)
Definition nothing_stored : session_state :=
  {| problem := Some None; result := Some None;
     user_x := Some ""%string; user_y := Some ""%string |}.

Definition is_box (e : element) : Prop :=
  match e with
  | SuccessBox _ | ErrorBox _ => True
  | _ => False
  end.

(** What a repair loop does to the coefficient [first] it redraws, next to
    the coefficient [other] it leaves alone, from the world [w]: when both
    are zero, [final] is the first redraw from [-5, 5] that is not zero and
    the draws up to it are consumed; otherwise nothing is drawn. *)
Definition repaired (first other : Z) (w : world) (final : Z) (w' : world)
    : Prop :=
  if (first =? 0) && (other =? 0) then
    exists k, (forall i, (i < k)%nat -> draw (-5) 5 w i = 0) /\
              draw (-5) 5 w k <> 0 /\
              final = draw (-5) 5 w k /\ w' = skip (S k) w
  else final = first /\ w' = w.

(** A source on which both repair loops turn twice: the four coefficients
    are first drawn 0, [a] is redrawn 0 then 2, [e] is redrawn 0 then -1,
    and the solution is (4, 1). *)
Definition repair_source : nat -> Z :=
  cycle [5; 5; 5; 5; 5; 7; 5; 4; 14; 11].

Definition repaired_problem : EquationSystem :=
  {| eq1_coeffs := (2, 0); eq1_const := 8;
     eq2_coeffs := (0, -1); eq2_const := -1;
     solution_x := 4; solution_y := 1 |}.

(** * Proofs *)

(** ** Stepping through the monad *)

Lemma bind_Some {A B} (m : M A) (k : A -> M B) w r :
  bind m k w = Some r ->
  exists a w1, m w = Some (a, w1) /\ k a w1 = Some r.
Proof.
  unfold bind. destruct (m w) as [[a w1]|] eqn:E; [|discriminate].
  intros H. exists a, w1. split; [reflexivity | exact H].
Qed.

Lemma ret_Some {A} (a : A) w r : ret a w = Some r -> r = (a, w).
Proof. unfold ret. congruence. Qed.

Lemma randint_Some lo hi w v w' :
  random.randint lo hi w = Some (v, w') ->
  v = lo + rng w (cursor w) mod (hi - lo + 1) /\ w' = advance w.
Proof.
  unfold random.randint, random.randbelow, bind, ret. intros H.
  injection H as <- <-. split; reflexivity.
Qed.

Lemma randint_range lo hi w v w' :
  lo <= hi ->
  random.randint lo hi w = Some (v, w') -> lo <= v <= hi.
Proof.
  intros Hle H. apply randint_Some in H as [-> _].
  pose proof (Z.mod_pos_bound (rng w (cursor w)) (hi - lo + 1)). lia.
Qed.

Lemma randint_eq lo hi w :
  random.randint lo hi w
  = Some (lo + rng w (cursor w) mod (hi - lo + 1), advance w).
Proof. reflexivity. Qed.

Lemma bind_eq {A B} (m : M A) (k : A -> M B) w a w1 :
  m w = Some (a, w1) -> bind m k w = k a w1.
Proof. unfold bind. intros ->. reflexivity. Qed.

Lemma if_ret {A} (c : bool) (x y : A) w :
  (if c then ret x else ret y) w = Some (if c then x else y, w).
Proof. destruct c; reflexivity. Qed.

(** ** The repair loops *)

Lemma redraw_a_repaired fuel : forall a b w a' w',
  redraw_a fuel a b w = Some (a', w') ->
  (a' <> 0 \/ b <> 0) /\ (coefficient a -> coefficient a').
Proof.
  induction fuel as [|fuel IH]; intros a b w a' w'; simpl;
    destruct ((a =? 0) && (b =? 0)) eqn:Z0.
  - discriminate.
  - intros H. apply ret_Some in H. injection H as <- <-.
    apply andb_false_iff in Z0. split; [lia | auto].
  - intros H. apply bind_Some in H as (a1 & w1 & H1 & H2).
    apply IH in H2 as [Hnz Hr]. split; [exact Hnz|].
    intros _. apply Hr. unfold coefficient.
    apply (randint_range (-5) 5 w a1 w1); [lia | exact H1].
  - intros H. apply ret_Some in H. injection H as <- <-.
    apply andb_false_iff in Z0. split; [lia | auto].
Qed.

Lemma redraw_e_repaired fuel : forall d e w e' w',
  redraw_e fuel d e w = Some (e', w') ->
  (d <> 0 \/ e' <> 0) /\ (coefficient e -> coefficient e').
Proof.
  induction fuel as [|fuel IH]; intros d e w e' w'; simpl;
    destruct ((d =? 0) && (e =? 0)) eqn:Z0.
  - discriminate.
  - intros H. apply ret_Some in H. injection H as <- <-.
    apply andb_false_iff in Z0. split; [lia | auto].
  - intros H. apply bind_Some in H as (e1 & w1 & H1 & H2).
    apply IH in H2 as [Hnz Hr]. split; [exact Hnz|].
    intros _. apply Hr. unfold coefficient.
    apply (randint_range (-5) 5 w e1 w1); [lia | exact H1].
  - intros H. apply ret_Some in H. injection H as <- <-.
    apply andb_false_iff in Z0. split; [lia | auto].
Qed.

(** ** One pass, then the whole loop *)

Lemma attempt_drawn fuel w p w' :
  attempt fuel w = Some (Some p, w') -> drawn p.
Proof.
  unfold attempt. intros H.
  apply bind_Some in H as (a0 & w1 & Ha0 & H).
  apply bind_Some in H as (b & w2 & Hb & H).
  apply bind_Some in H as (d & w3 & Hd & H).
  apply bind_Some in H as (e0 & w4 & He0 & H).
  apply bind_Some in H as (a & w5 & Ha & H).
  apply bind_Some in H as (e & w6 & He & H).
  apply bind_Some in H as (x & w7 & Hx & H).
  apply bind_Some in H as (y & w8 & Hy & H).
  cbv zeta in H.
  destruct (negb (a * e - b * d =? 0)) eqn:Hdet;
    apply ret_Some in H; [|discriminate].
  injection H as -> ->.
  apply randint_range in Ha0, Hb, Hd, He0, Hx, Hy; try lia.
  apply redraw_a_repaired in Ha as [Hab Hra].
  apply redraw_e_repaired in He as [Hde Hre].
  apply negb_true_iff, Z.eqb_neq in Hdet.
  constructor; unfold satisfies, determinant_of; simpl; auto.
Qed.

Lemma attempts_drawn fuel n : forall w p w',
  attempts n fuel w = Some (Some p, w') -> drawn p.
Proof.
  induction n as [|n IH]; intros w p w' H; simpl in H.
  - apply bind_Some in H as ([] & w1 & _ & H).
    apply ret_Some in H. discriminate.
  - apply bind_Some in H as ([q|] & w1 & Hq & H).
    + apply ret_Some in H. injection H as -> ->.
      exact (attempt_drawn _ _ _ _ Hq).
    + exact (IH _ _ _ H).
Qed.

Lemma generated_drawn fuel w p w' :
  generate_equation_system fuel w = Some (Some p, w') -> drawn p.
Proof. apply attempts_drawn. Qed.

(** The repair loops leave [b] and [d] as first drawn: they are the second
    and third draws of the returning pass. *)
Lemma attempt_keeps_b_d fuel w p w' :
  attempt fuel w = Some (Some p, w') ->
  snd (eq1_coeffs p) = -5 + rng w (S (cursor w)) mod 11 /\
  fst (eq2_coeffs p) = -5 + rng w (S (S (cursor w))) mod 11.
Proof.
  unfold attempt. rewrite 4 (bind_eq _ _ _ _ _ (randint_eq _ _ _)).
  intros H.
  apply bind_Some in H as (a & w5 & _ & H).
  apply bind_Some in H as (e & w6 & _ & H).
  apply bind_Some in H as (x & w7 & _ & H).
  apply bind_Some in H as (y & w8 & _ & H).
  cbv zeta in H. rewrite if_ret in H.
  destruct (negb _); [|discriminate].
  injection H as <- _. split; reflexivity.
Qed.

(** ** Invariants of a generated problem *)

(** C1. Whenever [generate_equation_system] returns a problem, the stored
    solution satisfies both equations exactly, over the integers. *)
Theorem generated_solution_exact fuel w p w' :
  generate_equation_system fuel w = Some (Some p, w') ->
  fst (eq1_coeffs p) * solution_x p + snd (eq1_coeffs p) * solution_y p
    = eq1_const p /\
  fst (eq2_coeffs p) * solution_x p + snd (eq2_coeffs p) * solution_y p
    = eq2_const p.
Proof. intros H. exact (drawn_consts p (generated_drawn _ _ _ _ H)). Qed.

Lemma generated_solution_exact_witness :
  generate_equation_system 0 (init scenario_source)
    = Some (Some scenario, scenario_end) /\
  (2 * 4 + 3 * 1 = 11 /\ 1 * 4 + -1 * 1 = 3).
Proof.
  split; [vm_compute; reflexivity|].
  apply (generated_solution_exact 0 (init scenario_source) scenario scenario_end).
  vm_compute; reflexivity.
Defined.

Lemma nonzero_determinant_unique p (x y : R) :
  determinant_of p <> 0 ->
  satisfies p (solution_x p) (solution_y p) ->
  satisfies_R p x y ->
  x = IZR (solution_x p) /\ y = IZR (solution_y p).
Proof.
  destruct p as [[a b] c [d e] f X Y].
  unfold determinant_of, satisfies, satisfies_R; simpl.
  intros Hdet [Hc Hf] [H1 H2]. subst c f.
  rewrite !plus_IZR, !mult_IZR in H1, H2.
  assert (HdetR : (IZR a * IZR e - IZR b * IZR d <> 0)%R).
  { rewrite <- !mult_IZR, <- minus_IZR. apply not_0_IZR. exact Hdet. }
  assert (Hx : ((IZR a * IZR e - IZR b * IZR d) * (x - IZR X) = 0)%R).
  { replace ((IZR a * IZR e - IZR b * IZR d) * (x - IZR X))%R
      with (IZR e * (IZR a * x + IZR b * y)
            - IZR b * (IZR d * x + IZR e * y)
            - (IZR a * IZR e - IZR b * IZR d) * IZR X)%R by ring.
    rewrite H1, H2. ring. }
  assert (Hy : ((IZR a * IZR e - IZR b * IZR d) * (y - IZR Y) = 0)%R).
  { replace ((IZR a * IZR e - IZR b * IZR d) * (y - IZR Y))%R
      with (IZR a * (IZR d * x + IZR e * y)
            - IZR d * (IZR a * x + IZR b * y)
            - (IZR a * IZR e - IZR b * IZR d) * IZR Y)%R by ring.
    rewrite H1, H2. ring. }
  apply Rmult_integral in Hx, Hy.
  split; [destruct Hx | destruct Hy]; (contradiction || lra).
Qed.

(** C2. Whenever [generate_equation_system] returns a problem, the
    determinant [a*e - b*d] of its coefficients is not zero, and the pair
    [(solution_x, solution_y)] is the one real solution of the system. *)
Theorem generated_determinant_nonzero fuel w p w' :
  generate_equation_system fuel w = Some (Some p, w') ->
  fst (eq1_coeffs p) * snd (eq2_coeffs p)
    - snd (eq1_coeffs p) * fst (eq2_coeffs p) <> 0 /\
  forall x y : R,
    satisfies_R p x y <-> x = IZR (solution_x p) /\ y = IZR (solution_y p).
Proof.
  intros H. pose proof (generated_drawn _ _ _ _ H) as D.
  split; [exact (drawn_det p D)|].
  intros x y. split.
  - apply nonzero_determinant_unique; [exact (drawn_det p D) | exact (drawn_consts p D)].
  - intros [-> ->]. destruct (drawn_consts p D) as [H1 H2].
    unfold satisfies_R. rewrite <- H1, <- H2.
    rewrite !plus_IZR, !mult_IZR. split; reflexivity.
Qed.

Lemma generated_determinant_nonzero_witness :
  generate_equation_system 0 (init scenario_source)
    = Some (Some scenario, scenario_end) /\
  2 * -1 - 3 * 1 <> 0.
Proof.
  split; [vm_compute; reflexivity|].
  apply (generated_determinant_nonzero 0 (init scenario_source) scenario scenario_end).
  vm_compute; reflexivity.
Defined.

(** C7. Whenever [generate_equation_system] returns a problem, the
    coefficients [a], [b], [d], [e] (redrawn or not) lie in [-5, 5] and
    [solution_x], [solution_y] lie in [-10, 10]. *)
Theorem generated_ranges fuel w p w' :
  generate_equation_system fuel w = Some (Some p, w') ->
  (-5 <= fst (eq1_coeffs p) <= 5 /\ -5 <= snd (eq1_coeffs p) <= 5 /\
   -5 <= fst (eq2_coeffs p) <= 5 /\ -5 <= snd (eq2_coeffs p) <= 5) /\
  (-10 <= solution_x p <= 10 /\ -10 <= solution_y p <= 10).
Proof.
  intros H. destruct (generated_drawn _ _ _ _ H).
  unfold coefficient, solution_value in *. repeat split; lia.
Qed.

Lemma generated_ranges_witness :
  generate_equation_system 0 (init scenario_source)
    = Some (Some scenario, scenario_end) /\
  (-5 <= 2 <= 5 /\ -5 <= 3 <= 5 /\ -5 <= 1 <= 5 /\ -5 <= -1 <= 5) /\
  (-10 <= 4 <= 10 /\ -10 <= 1 <= 10).
Proof.
  split; [vm_compute; reflexivity|].
  apply (generated_ranges 0 (init scenario_source) scenario scenario_end).
  vm_compute; reflexivity.
Defined.

(** ** The shape of a run *)

Lemma attempts_run fuel n : forall w r w',
  attempts n fuel w = Some (r, w') ->
  (exists k w1 p, (k < n)%nat /\ rejected fuel k w w1 /\
                  attempt fuel w1 = Some (Some p, w') /\ r = Some p) \/
  (exists w1, rejected fuel n w w1 /\ r = None /\ w' = warned w1).
Proof.
  induction n as [|n IH]; intros w r w' H; simpl in H.
  - right. exists w. unfold bind, st.warning, ret in H.
    injection H as <- <-. repeat split. constructor.
  - apply bind_Some in H as ([q|] & w1 & Hq & H).
    + apply ret_Some in H. injection H as -> ->.
      left. exists O, w, q. repeat split; [lia | constructor | exact Hq].
    + destruct (IH _ _ _ H) as [(k & w2 & p & Hk & Hrej & Hp & ->)
                               | (w2 & Hrej & -> & ->)].
      * left. exists (S k), w2, p.
        repeat split; [lia | econstructor; eassumption | exact Hp].
      * right. exists w2. repeat split. econstructor; eassumption.
Qed.

Lemma rejected_attempts fuel n : forall w w1,
  rejected fuel n w w1 -> attempts n fuel w = Some (None, warned w1).
Proof.
  induction n as [|n IH]; intros w w1 H; inversion H; subst; simpl.
  - reflexivity.
  - unfold bind at 1. rewrite H1. apply IH. assumption.
Qed.

(** ** A source that yields 0 for ever *)

Lemma redraw_a_spins fuel : forall w,
  (forall i, -5 + rng w i mod 11 = 0) -> redraw_a fuel 0 0 w = None.
Proof.
  induction fuel as [|fuel IH]; intros w Hz; simpl; [reflexivity|].
  unfold bind at 1.
  destruct (random.randint (-5) 5 w) as [[a1 w1]|] eqn:E; [|reflexivity].
  apply randint_Some in E as [-> ->].
  change (5 - -5 + 1) with 11. rewrite Hz. apply IH. exact Hz.
Qed.

Lemma attempt_spins fuel w :
  (forall i, -5 + rng w i mod 11 = 0) -> attempt fuel w = None.
Proof.
  intros Hz. unfold attempt.
  rewrite 4 (bind_eq _ _ _ _ _ (randint_eq _ _ _)).
  cbn [rng cursor advance].
  change (5 - -5 + 1) with 11. rewrite !Hz.
  unfold bind at 1. rewrite redraw_a_spins; [reflexivity | exact Hz].
Qed.

(** ** Sources on which the repair loops exit *)

Lemma redraw_a_done fuel a b w :
  (a =? 0) && (b =? 0) = false -> redraw_a fuel a b w = Some (a, w).
Proof. intros Hc. destruct fuel; simpl; rewrite Hc; reflexivity. Qed.

Lemma redraw_e_as_a fuel : forall d e w,
  redraw_e fuel d e w = redraw_a fuel e d w.
Proof.
  induction fuel as [|fuel IH]; intros d e w; simpl;
    rewrite (andb_comm (d =? 0)); destruct ((e =? 0) && (d =? 0));
    try reflexivity.
  unfold bind. destruct (random.randint (-5) 5 w) as [[e1 w1]|]; [apply IH | reflexivity].
Qed.

(** If the draw [k] places ahead is not zero, [k + 1] turns are enough,
    and more turns change nothing. *)
Lemma redraw_a_exits k : forall w a b,
  -5 + rng w (cursor w + k) mod 11 <> 0 ->
  exists a' w', rng w' = rng w /\
    forall fuel, (k < fuel)%nat -> redraw_a fuel a b w = Some (a', w').
Proof.
  induction k as [|k IH]; intros w a b Hnz;
    destruct ((a =? 0) && (b =? 0)) eqn:Hc;
    try (exists a, w; split; [reflexivity | intros; apply redraw_a_done, Hc]).
  - rewrite Nat.add_0_r in Hnz.
    exists (-5 + rng w (cursor w) mod 11), (advance w). split; [reflexivity|].
    intros [|fuel] Hf; [lia|]. simpl. rewrite Hc.
    rewrite (bind_eq _ _ _ _ _ (randint_eq _ _ _)).
    apply redraw_a_done. apply andb_false_iff. left.
    apply Z.eqb_neq. exact Hnz.
  - destruct (IH (advance w) (-5 + rng w (cursor w) mod 11) b) as (a' & w' & Hr & Hrun).
    { cbn [rng cursor advance]. rewrite Nat.add_succ_comm. exact Hnz. }
    exists a', w'. split; [exact Hr|].
    intros [|fuel] Hf; [lia|]. simpl. rewrite Hc.
    rewrite (bind_eq _ _ _ _ _ (randint_eq _ _ _)).
    apply Hrun. lia.
Qed.

Lemma redraw_a_terminates w a b :
  recurrent (rng w) ->
  exists budget a' w', rng w' = rng w /\
    forall fuel, (budget <= fuel)%nat -> redraw_a fuel a b w = Some (a', w').
Proof.
  intros Hrec. destruct (Hrec (cursor w)) as (j & Hj & Hnz).
  destruct (redraw_a_exits (j - cursor w) w a b) as (a' & w' & Hr & Hrun).
  { replace (cursor w + (j - cursor w))%nat with j by lia. exact Hnz. }
  exists (S (j - cursor w)), a', w'. split; [exact Hr|].
  intros fuel Hf. apply Hrun. lia.
Qed.

Lemma attempt_terminates w :
  recurrent (rng w) ->
  exists budget r w', rng w' = rng w /\
    forall fuel, (budget <= fuel)%nat -> attempt fuel w = Some (r, w').
Proof.
  intros Hrec.
  set (w4 := advance (advance (advance (advance w)))).
  set (a0 := -5 + rng w (cursor w) mod (5 - -5 + 1)).
  set (b := -5 + rng (advance w) (cursor (advance w)) mod (5 - -5 + 1)).
  set (d := -5 + rng (advance (advance w)) (cursor (advance (advance w)))
                 mod (5 - -5 + 1)).
  set (e0 := -5 + rng (advance (advance (advance w)))
                    (cursor (advance (advance (advance w)))) mod (5 - -5 + 1)).
  destruct (redraw_a_terminates w4 a0 b Hrec) as (Fa & a & w5 & Hr5 & Ha).
  destruct (redraw_a_terminates w5 e0 d) as (Fe & e & w6 & Hr6 & He).
  { rewrite Hr5. exact Hrec. }
  eexists (Nat.max Fa Fe), _, _. split; cycle 1.
  - intros fuel Hf. unfold attempt.
    rewrite 4 (bind_eq _ _ _ _ _ (randint_eq _ _ _)).
    fold a0 b d e0 w4.
    rewrite (bind_eq _ _ _ _ _ (Ha fuel ltac:(lia))).
    rewrite (bind_eq (redraw_e fuel d e0) _ w5 e w6)
      by (rewrite redraw_e_as_a; apply He; lia).
    rewrite 2 (bind_eq _ _ _ _ _ (randint_eq _ _ _)).
    cbv zeta. apply if_ret.
  - cbn [rng advance]. rewrite Hr6, Hr5. reflexivity.
Qed.

Lemma attempts_terminate n : forall w,
  recurrent (rng w) ->
  exists budget r w',
    forall fuel, (budget <= fuel)%nat -> attempts n fuel w = Some (r, w').
Proof.
  induction n as [|n IH]; intros w Hrec.
  - exists O, None, (warned w). intros fuel _. reflexivity.
  - destruct (attempt_terminates w Hrec) as (F1 & [p|] & w1 & Hr1 & H1).
    + exists F1, (Some p), w1. intros fuel Hf. simpl.
      rewrite (bind_eq _ _ _ _ _ (H1 fuel Hf)). reflexivity.
    + destruct (IH w1) as (F2 & r & w' & H2).
      { rewrite Hr1. exact Hrec. }
      exists (Nat.max F1 F2), r, w'. intros fuel Hf. simpl.
      rewrite (bind_eq _ _ _ _ _ (H1 fuel ltac:(lia))).
      apply H2. lia.
Qed.

(** ** The repair of a degenerate equation *)

Lemma draw_advance lo hi w i :
  draw lo hi (advance w) i = draw lo hi w (S i).
Proof.
  unfold draw. cbn [rng cursor advance]. rewrite <- plus_n_Sm. reflexivity.
Qed.

Lemma skip_advance n w : skip n (advance w) = skip (S n) w.
Proof.
  unfold skip. cbn [rng cursor warnings advance].
  rewrite <- plus_n_Sm. reflexivity.
Qed.

Lemma redraw_a_repairs fuel : forall a b w a' w',
  redraw_a fuel a b w = Some (a', w') -> repaired a b w a' w'.
Proof.
  induction fuel as [|fuel IH]; intros a b w a' w'; unfold repaired;
    cbn [redraw_a];
    destruct ((a =? 0) && (b =? 0)) eqn:Hc; try discriminate;
    try (intros H; apply ret_Some in H; injection H as <- <-;
         split; reflexivity).
  rewrite (bind_eq _ _ _ _ _ (randint_eq _ _ _)).
  change (-5 + rng w (cursor w) mod (5 - -5 + 1)) with (draw (-5) 5 w 0).
  intros H. apply IH in H. unfold repaired in H.
  apply andb_true_iff in Hc as [_ Hb]. rewrite Hb, andb_true_r in H.
  destruct (Z.eqb_spec (draw (-5) 5 w 0) 0) as [Hz | Hnz].
  - destruct H as (k & Hzero & Hk & -> & ->).
    exists (S k). rewrite draw_advance in *. rewrite skip_advance.
    repeat split; try assumption.
    intros [|i] Hi; [exact Hz|].
    rewrite <- draw_advance. apply Hzero. lia.
  - destruct H as [-> ->]. exists O.
    repeat split; [intros i Hi; lia | exact Hnz].
Qed.

Lemma attempt_passes_through_repairs fuel w p w' :
  attempt fuel w = Some (Some p, w') ->
  exists wa we,
    redraw_a fuel (draw (-5) 5 w 0) (draw (-5) 5 w 1) (skip 4 w)
      = Some (fst (eq1_coeffs p), wa) /\
    snd (eq1_coeffs p) = draw (-5) 5 w 1 /\
    fst (eq2_coeffs p) = draw (-5) 5 w 2 /\
    redraw_e fuel (draw (-5) 5 w 2) (draw (-5) 5 w 3) wa
      = Some (snd (eq2_coeffs p), we).
Proof.
  unfold attempt. rewrite 4 (bind_eq _ _ _ _ _ (randint_eq _ _ _)).
  intros H.
  apply bind_Some in H as (a & w5 & Ha & H).
  apply bind_Some in H as (e & w6 & He & H).
  rewrite 2 (bind_eq _ _ _ _ _ (randint_eq _ _ _)) in H.
  cbv zeta in H. rewrite if_ret in H.
  destruct (negb _); [|discriminate].
  injection H as <- _. cbn [eq1_coeffs eq2_coeffs fst snd].
  exists w5, w6. repeat split; assumption.
Qed.

(** C6. Whenever [generate_equation_system] returns a problem, neither
    equation is degenerate: [a] and [b] are not both zero, and [d] and [e]
    are not both zero.  The repair that precedes the determinant test
    redraws [a] alone for the first equation and [e] alone for the second:
    each loop, when its pair is (0, 0), returns the first redraw from
    [-5, 5] that is not zero, and otherwise draws nothing; the returned [a]
    and [e] are what the two loops return on the first four draws of the
    returning pass, and [b] and [d] are as first drawn. *)
Theorem generated_equations_not_degenerate :
  (forall fuel w p w',
     generate_equation_system fuel w = Some (Some p, w') ->
     (~ (fst (eq1_coeffs p) = 0 /\ snd (eq1_coeffs p) = 0) /\
      ~ (fst (eq2_coeffs p) = 0 /\ snd (eq2_coeffs p) = 0)) /\
     exists k w1,
       (k < max_iter)%nat /\ rejected fuel k w w1 /\
       attempt fuel w1 = Some (Some p, w')) /\
  (forall fuel w p w',
     attempt fuel w = Some (Some p, w') ->
     exists wa we,
       redraw_a fuel (draw (-5) 5 w 0) (draw (-5) 5 w 1) (skip 4 w)
         = Some (fst (eq1_coeffs p), wa) /\
       snd (eq1_coeffs p) = draw (-5) 5 w 1 /\
       fst (eq2_coeffs p) = draw (-5) 5 w 2 /\
       redraw_e fuel (draw (-5) 5 w 2) (draw (-5) 5 w 3) wa
         = Some (snd (eq2_coeffs p), we)) /\
  (forall fuel a b w a' w',
     redraw_a fuel a b w = Some (a', w') ->
     repaired a b w a' w' /\ ~ (a' = 0 /\ b = 0)) /\
  (forall fuel d e w e' w',
     redraw_e fuel d e w = Some (e', w') ->
     repaired e d w e' w' /\ ~ (d = 0 /\ e' = 0)).
Proof.
  split; [|split; [|split]].
  - intros fuel w p w' H. split.
    + pose proof (generated_drawn _ _ _ _ H) as D.
      pose proof (drawn_eq1 p D). pose proof (drawn_eq2 p D). lia.
    + destruct (attempts_run _ _ _ _ _ H)
        as [(k & w1 & q & Hk & Hrej & Hq & [= <-]) | (w1 & _ & [=] & _)].
      exists k, w1. repeat split; assumption.
  - exact attempt_passes_through_repairs.
  - intros fuel a b w a' w' H. split.
    + exact (redraw_a_repairs _ _ _ _ _ _ H).
    + apply redraw_a_repaired in H as [Hnz _]. lia.
  - intros fuel d e w e' w' H. split.
    + rewrite redraw_e_as_a in H. exact (redraw_a_repairs _ _ _ _ _ _ H).
    + apply redraw_e_repaired in H as [Hnz _]. lia.
Qed.

Lemma generated_equations_not_degenerate_witness :
  generate_equation_system 2 (init repair_source)
    = Some (Some repaired_problem, skip 10 (init repair_source)) /\
  (~ (2 = 0 /\ 0 = 0) /\ ~ (0 = 0 /\ -1 = 0)) /\
  redraw_a 2 0 0 (skip 4 (init repair_source))
    = Some (2, skip 6 (init repair_source)) /\
  repaired 0 0 (skip 4 (init repair_source)) 2 (skip 6 (init repair_source)) /\
  redraw_e 2 0 0 (skip 6 (init repair_source))
    = Some (-1, skip 8 (init repair_source)) /\
  repaired 0 0 (skip 6 (init repair_source)) (-1)
           (skip 8 (init repair_source)).
Proof.
  destruct generated_equations_not_degenerate as (Hgen & _ & Ha & He).
  split; [vm_compute; reflexivity|].
  split.
  { apply (Hgen 2%nat (init repair_source) repaired_problem
             (skip 10 (init repair_source))).
    vm_compute; reflexivity. }
  split; [vm_compute; reflexivity|].
  split.
  { apply (Ha 2%nat 0 0 (skip 4 (init repair_source)) 2
             (skip 6 (init repair_source))).
    vm_compute; reflexivity. }
  split; [vm_compute; reflexivity|].
  apply (He 2%nat 0 0 (skip 6 (init repair_source)) (-1)
           (skip 8 (init repair_source))).
  vm_compute; reflexivity.
Defined.

(** ** Termination and the failure exit *)

(** C3 (as stated): on the source whose every draw from [-5, 5] is 0, no
    loop budget lets [generate_equation_system] return: the first repair
    loop keeps redrawing. *)
Lemma generate_spins_on_stuck_source :
  ~ (exists fuel r,
       generate_equation_system fuel (init stuck_source) = Some r).
Proof.
  intros (fuel & r & Hr).
  unfold generate_equation_system, max_iter in Hr. simpl attempts in Hr.
  unfold bind at 1 in Hr. rewrite attempt_spins in Hr; [discriminate|].
  intros i. reflexivity.
Qed.

(** C3 (amended). On every source whose draws from [-5, 5] do not stay 0
    for ever, [generate_equation_system] returns, with the same outcome for
    every sufficient loop budget, after at most [max_iter] passes: fewer
    than [max_iter] rejected passes and a returning one, or [max_iter]
    rejected passes and the failure exit. *)
Theorem generate_returns_within_cap src :
  recurrent src ->
  exists budget r w',
    forall fuel, (budget <= fuel)%nat ->
      generate_equation_system fuel (init src) = Some (r, w') /\
      within_cap fuel (init src) r w'.
Proof.
  intros Hrec.
  destruct (attempts_terminate max_iter (init src) Hrec) as (F & r & w' & H).
  exists F, r, w'. intros fuel Hf. split; [exact (H fuel Hf)|].
  apply attempts_run. exact (H fuel Hf).
Qed.

Lemma flat_source_recurrent : recurrent flat_source.
Proof. intros i. exists i. split; [lia | discriminate]. Qed.

Lemma generate_returns_within_cap_witness :
  recurrent flat_source /\
  exists budget r w',
    forall fuel, (budget <= fuel)%nat ->
      generate_equation_system fuel (init flat_source) = Some (r, w') /\
      within_cap fuel (init flat_source) r w'.
Proof.
  split; [exact flat_source_recurrent|].
  apply (generate_returns_within_cap flat_source).
  intros i. exists i. split; [lia | discriminate].
Defined.

(** C5. When [max_iter] = 100 passes in a row are rejected for a zero
    determinant, [generate_equation_system] returns [None] after the
    warning, and it returns [None] in no other case; some source drives it
    there. *)
Theorem generation_failure :
  max_iter = 100%nat /\
  (forall fuel w w1,
     rejected fuel max_iter w w1 ->
     generate_equation_system fuel w = Some (None, warned w1)) /\
  (forall fuel w w',
     generate_equation_system fuel w = Some (None, w') ->
     exists w1, rejected fuel max_iter w w1 /\ w' = warned w1) /\
  (exists src w', generate_equation_system 0 (init src) = Some (None, w')).
Proof.
  split; [reflexivity|]. split; [|split].
  - intros fuel w w1. apply rejected_attempts.
  - intros fuel w w' H.
    destruct (attempts_run _ _ _ _ _ H) as [(k & w1 & p & _ & _ & _ & Hp)
                                           | (w1 & Hrej & _ & ->)].
    + discriminate.
    + exists w1. split; [exact Hrej | reflexivity].
  - exists flat_source, (warned flat_end). vm_compute. reflexivity.
Qed.

Lemma generation_failure_witness :
  rejected 0 max_iter (init flat_source) flat_end /\
  generate_equation_system 0 (init flat_source) = Some (None, warned flat_end).
Proof.
  assert (R : rejected 0 max_iter (init flat_source) flat_end).
  { unfold max_iter.
    do 100 (eapply rejected_more; [vm_compute; reflexivity|]).
    apply rejected_none. }
  split; [exact R|].
  apply (proj1 (proj2 generation_failure) 0%nat (init flat_source) flat_end).
  exact R.
Defined.

(** ** The judgment *)

Lemma blank_iff s : blank s = true <-> s = EmptyString.
Proof. destruct s; simpl; split; congruence. Qed.

(** A property of the 21 values of [-10, 10] can be checked on each. *)
Lemma over_solution_values (P : Z -> Prop) :
  Forall P (map (fun k => Z.of_nat k - 10) (seq 0 21)) ->
  forall n, solution_value n -> P n.
Proof.
  intros HP n [Hlo Hhi]. rewrite Forall_forall in HP. apply HP.
  apply in_map_iff. exists (Z.to_nat (n + 10)). split; [lia|].
  apply in_seq. lia.
Qed.

Lemma float_of_int_small n :
  solution_value n -> float_of_int n = Ok (float_of_Z n).
Proof.
  revert n. apply over_solution_values.
  repeat (constructor; [vm_compute; reflexivity|]). constructor.
Qed.

(** What the handler stores when both fields hold a number. *)
Lemma judgment_of_numbers f prob x y ux uy :
  f EmptyString = None ->
  f x = Some ux -> f y = Some uy ->
  solution_value (solution_x prob) -> solution_value (solution_y prob) ->
  judgment f (Some prob) x y =
  Ok (if PrimFloat.ltb
           (PrimFloat.abs (PrimFloat.sub ux (float_of_Z (solution_x prob))))
           tolerance
         && PrimFloat.ltb
              (PrimFloat.abs (PrimFloat.sub uy (float_of_Z (solution_y prob))))
              tolerance
      then correct prob else incorrect).
Proof.
  intros Hempty Hx Hy Hsx Hsy.
  assert (Bx : blank x = false).
  { destruct x; [congruence | reflexivity]. }
  assert (By : blank y = false).
  { destruct y; [congruence | reflexivity]. }
  unfold judgment, judgment_body, to_float, close_to.
  rewrite Bx, By, Hx, Hy. simpl.
  rewrite (float_of_int_small _ Hsx), (float_of_int_small _ Hsy). simpl.
  destruct (PrimFloat.ltb _ tolerance); simpl; [|reflexivity].
  destruct (PrimFloat.ltb _ tolerance); reflexivity.
Qed.

(** C8. When at least one of the two fields is empty, the handler stores
    the warning that asks for both values, whatever [float] would make of
    the other field. *)
Theorem judgment_empty_input f problem x y :
  x = EmptyString \/ y = EmptyString ->
  judgment f problem x y =
  Ok {| type := "warning"; message := "x と y の両方を入力してください。" |}.
Proof.
  intros H. unfold judgment, judgment_body.
  replace (blank x || blank y) with true; [reflexivity|].
  symmetry. apply orb_true_iff.
  destruct H as [H | H]; [left | right]; apply blank_iff; exact H.
Qed.

Lemma judgment_empty_input_witness :
  (EmptyString = EmptyString \/ "5"%string = EmptyString) /\
  judgment decimal.float_of_str (Some scenario) "" "5" =
  Ok {| type := "warning"; message := "x と y の両方を入力してください。" |}.
Proof.
  split; [left; reflexivity|].
  apply (judgment_empty_input decimal.float_of_str (Some scenario) "" "5").
  left; reflexivity.
Defined.

(** C9. When both fields are filled and [float] raises [ValueError] on at
    least one of them, the handler stores the error that asks for valid
    numbers. *)
Theorem judgment_not_a_number f problem x y :
  x <> EmptyString -> y <> EmptyString ->
  f x = None \/ f y = None ->
  judgment f problem x y =
  Ok {| type := "error"; message := "数字を正しく入力してください。" |}.
Proof.
  intros Hx Hy H. unfold judgment, judgment_body, to_float.
  destruct x as [|cx x]; [congruence|]. destruct y as [|cy y]; [congruence|].
  simpl. destruct (f (String cx x)) as [ux|]; [|reflexivity].
  destruct H as [H | ->]; [discriminate | reflexivity].
Qed.

Lemma judgment_not_a_number_witness :
  "abc"%string <> EmptyString /\ "3"%string <> EmptyString /\
  (decimal.float_of_str "abc" = None \/ decimal.float_of_str "3" = None) /\
  judgment decimal.float_of_str (Some scenario) "abc" "3" =
  Ok {| type := "error"; message := "数字を正しく入力してください。" |}.
Proof.
  split; [discriminate|]. split; [discriminate|].
  split; [left; vm_compute; reflexivity|].
  apply (judgment_not_a_number decimal.float_of_str (Some scenario) "abc" "3");
    [discriminate | discriminate | left; vm_compute; reflexivity].
Defined.

(** C4. When both fields hold a number and a generated problem is stored,
    the handler stores [success], with the integer solution in the
    message, if both numbers are within [1e-9] of the solution, and the
    generic [error] otherwise; so the kind is [success] exactly when both
    are within tolerance. *)
Theorem judgment_by_tolerance f prob x y ux uy :
  f EmptyString = None ->
  f x = Some ux -> f y = Some uy ->
  solution_value (solution_x prob) -> solution_value (solution_y prob) ->
  (within_tolerance ux (solution_x prob) /\
   within_tolerance uy (solution_y prob) ->
   judgment f (Some prob) x y =
   Ok {| type := "success";
         message := "正解です！ (x=" ++ str (solution_x prob)
                    ++ ", y=" ++ str (solution_y prob) ++ ")" |}) /\
  (~ (within_tolerance ux (solution_x prob) /\
      within_tolerance uy (solution_y prob)) ->
   judgment f (Some prob) x y =
   Ok {| type := "error";
         message := "不正解です。もう一度考えてみましょう。" |}) /\
  ((exists r, judgment f (Some prob) x y = Ok r /\ type r = "success"%string)
   <-> within_tolerance ux (solution_x prob) /\
       within_tolerance uy (solution_y prob)).
Proof.
  intros Hempty Hx Hy Hsx Hsy.
  rewrite (judgment_of_numbers f prob x y ux uy Hempty Hx Hy Hsx Hsy).
  unfold within_tolerance.
  destruct (PrimFloat.ltb (PrimFloat.abs (PrimFloat.sub ux _)) tolerance);
    destruct (PrimFloat.ltb (PrimFloat.abs (PrimFloat.sub uy _)) tolerance);
    cbn [andb]; (split; [|split; [|split]]).
  all: try (intros _; reflexivity).
  all: try (intros [? ?]; discriminate).
  all: try (intros Hn; exfalso; apply Hn; split; reflexivity).
  all: try (intros (r & [= <-] & Ht); discriminate).
  all: intros _; eexists; split; reflexivity.
Qed.

Lemma judgment_by_tolerance_witness :
  decimal.float_of_str EmptyString = None /\
  decimal.float_of_str "4" = Some 4%float /\
  decimal.float_of_str "1" = Some 1%float /\
  solution_value (solution_x scenario) /\
  solution_value (solution_y scenario) /\
  within_tolerance 4%float (solution_x scenario) /\
  within_tolerance 1%float (solution_y scenario) /\
  judgment decimal.float_of_str (Some scenario) "4" "1" =
  Ok {| type := "success"; message := "正解です！ (x=4, y=1)" |}.
Proof.
  repeat (split; [vm_compute; first [reflexivity | split; discriminate]|]).
  apply (judgment_by_tolerance decimal.float_of_str scenario "4" "1"
           4%float 1%float);
    try (vm_compute; reflexivity);
    try (vm_compute; split; discriminate).
  split; vm_compute; reflexivity.
Defined.

(** C10. The comparison is strict: when both fields hold a number, a
    generated problem is stored and the computed distance of one of the
    numbers to its solution component is the binary64 value [1e-9] itself,
    the handler stores the generic [error], not [success]. *)
Theorem judgment_at_tolerance f prob x y ux uy :
  f EmptyString = None ->
  f x = Some ux -> f y = Some uy ->
  solution_value (solution_x prob) -> solution_value (solution_y prob) ->
  PrimFloat.abs (PrimFloat.sub ux (float_of_Z (solution_x prob))) = tolerance \/
  PrimFloat.abs (PrimFloat.sub uy (float_of_Z (solution_y prob))) = tolerance ->
  judgment f (Some prob) x y =
  Ok {| type := "error"; message := "不正解です。もう一度考えてみましょう。" |}.
Proof.
  intros Hempty Hx Hy Hsx Hsy Hat.
  rewrite (judgment_of_numbers f prob x y ux uy Hempty Hx Hy Hsx Hsy).
  assert (Hstrict : PrimFloat.ltb tolerance tolerance = false)
    by (vm_compute; reflexivity).
  destruct Hat as [-> | ->]; rewrite Hstrict.
  - reflexivity.
  - rewrite andb_false_r. reflexivity.
Qed.

Lemma judgment_at_tolerance_witness :
  decimal.float_of_str EmptyString = None /\
  decimal.float_of_str "0.000000001" = Some tolerance /\
  decimal.float_of_str "1" = Some 1%float /\
  solution_value (solution_x origin_x) /\
  solution_value (solution_y origin_x) /\
  PrimFloat.abs (PrimFloat.sub tolerance (float_of_Z (solution_x origin_x)))
    = tolerance /\
  judgment decimal.float_of_str (Some origin_x) "0.000000001" "1" =
  Ok {| type := "error"; message := "不正解です。もう一度考えてみましょう。" |}.
Proof.
  repeat (split; [vm_compute; first [reflexivity | split; discriminate]|]).
  apply (judgment_at_tolerance decimal.float_of_str origin_x "0.000000001" "1"
           tolerance 1%float);
    try (vm_compute; reflexivity);
    try (vm_compute; split; discriminate).
  left. vm_compute. reflexivity.
Defined.

(** The exact solution, typed as such, is within tolerance. *)
Lemma exact_answer_within_tolerance n :
  solution_value n -> within_tolerance (float_of_Z n) n.
Proof.
  revert n. apply over_solution_values.
  repeat (constructor; [vm_compute; reflexivity|]). constructor.
Qed.

(** ** The scenarios of the specification, run *)

Example generate_scenario :
  result_of (generate_equation_system 0 (init scenario_source))
  = Some (Some scenario).
Proof. vm_compute. reflexivity. Qed.

Example judge_exact :
  judgment decimal.float_of_str (Some scenario) "4" "1" = Ok (correct scenario).
Proof. vm_compute. reflexivity. Qed.

Example judge_within_tolerance :
  judgment decimal.float_of_str (Some scenario) "4.0000000001" "1"
  = Ok (correct scenario).
Proof. vm_compute. reflexivity. Qed.

Example judge_wrong :
  judgment decimal.float_of_str (Some scenario) "5" "1" = Ok incorrect.
Proof. vm_compute. reflexivity. Qed.

Example judge_bad_input :
  judgment decimal.float_of_str (Some scenario) "" "5" = Ok enter_both.
Proof. vm_compute. reflexivity. Qed.

Example judge_non_numeric :
  judgment decimal.float_of_str (Some scenario) "abc" "3" = Ok enter_numbers.
Proof. vm_compute. reflexivity. Qed.

(** Without a stored problem the name [prob] is unbound: two numbers make
    the handler raise [NameError], which its [except] clause lets through. *)
Example judge_without_problem :
  judgment decimal.float_of_str None "4" "1" = Raise NameError.
Proof. vm_compute. reflexivity. Qed.

(** The literal [1e-9] is the quotient [1 / 10^9] rounded to binary64. *)
Example tolerance_is_1e_9 :
  SF2Prim (SFdiv prec emax (S754_finite false 1 0)
                           (S754_finite false (10 ^ 9) 0))
  = tolerance.
Proof. vm_compute. reflexivity. Qed.

(** The distance that counts is the one computed from the parsed value:
    the text [-0.999999999] is [1e-9] away from [-1] as a decimal, its
    binary64 reading is nearer, and the answer is accepted. *)
Example judge_decimal_distance :
  judgment decimal.float_of_str
    (Some {| eq1_coeffs := (2, 3); eq1_const := 1;
             eq2_coeffs := (1, -1); eq2_const := -2;
             solution_x := -1; solution_y := 1 |})
    "-0.999999999" "1"
  = Ok {| type := "success"; message := "正解です！ (x=-1, y=1)" |}.
Proof. vm_compute. reflexivity. Qed.


(** * Further properties of the code *)

(** ** The generator and its world *)

Lemma redraw_a_world fuel : forall a b w a' w',
  redraw_a fuel a b w = Some (a', w') ->
  rng w' = rng w /\ warnings w' = warnings w /\ (cursor w <= cursor w')%nat.
Proof.
  induction fuel as [|fuel IH]; intros a b w a' w'; simpl;
    destruct ((a =? 0) && (b =? 0)); try discriminate;
    try (intros H; apply ret_Some in H; injection H as <- <-;
         repeat split; lia).
  rewrite (bind_eq _ _ _ _ _ (randint_eq _ _ _)). intros H.
  apply IH in H as (Hr & Hw & Hc). cbn [rng warnings cursor advance] in *.
  repeat split; [exact Hr | exact Hw | lia].
Qed.

Lemma attempt_world fuel w r w' :
  attempt fuel w = Some (r, w') ->
  rng w' = rng w /\ warnings w' = warnings w /\
  (6 + cursor w <= cursor w')%nat.
Proof.
  unfold attempt. rewrite 4 (bind_eq _ _ _ _ _ (randint_eq _ _ _)).
  intros H.
  apply bind_Some in H as (a & w5 & Ha & H).
  apply bind_Some in H as (e & w6 & He & H).
  rewrite redraw_e_as_a in He.
  apply redraw_a_world in Ha as (Hr5 & Hw5 & Hc5).
  apply redraw_a_world in He as (Hr6 & Hw6 & Hc6).
  rewrite 2 (bind_eq _ _ _ _ _ (randint_eq _ _ _)) in H.
  cbv zeta in H. rewrite if_ret in H. injection H as _ <-.
  cbn [rng warnings cursor advance] in *.
  repeat split; [congruence | congruence | lia].
Qed.

Lemma rejected_world fuel n : forall w w1,
  rejected fuel n w w1 ->
  rng w1 = rng w /\ warnings w1 = warnings w /\
  (6 * n + cursor w <= cursor w1)%nat.
Proof.
  induction n as [|n IH]; intros w w1 H; inversion H; subst.
  - repeat split; lia.
  - apply attempt_world in H1 as (Hr & Hw & Hc).
    apply IH in H2 as (Hr' & Hw' & Hc').
    repeat split; [congruence | congruence | lia].
Qed.

(** X1. A call that returns a problem leaves the warning sink as it was; a
    call that returns [None] has added the failure message, once, at the
    end. *)
Theorem generate_warns_only_on_failure fuel w r w' :
  generate_equation_system fuel w = Some (r, w') ->
  warnings w' = warnings w ++ match r with
                              | Some _ => []
                              | None => [generation_failed]
                              end.
Proof.
  intros H.
  destruct (attempts_run _ _ _ _ _ H) as [(k & w1 & p & _ & Hrej & Hp & ->)
                                         | (w1 & Hrej & -> & ->)].
  - apply rejected_world in Hrej as (_ & Hw & _).
    apply attempt_world in Hp as (_ & Hw' & _).
    rewrite app_nil_r. congruence.
  - apply rejected_world in Hrej as (_ & Hw & _).
    cbn [warnings warned]. congruence.
Qed.

Lemma generate_warns_only_on_failure_witness :
  generate_equation_system 0 (init flat_source)
    = Some (None, warned flat_end) /\
  warnings (warned flat_end) = [] ++ [generation_failed].
Proof.
  split; [vm_compute; reflexivity|].
  apply (generate_warns_only_on_failure 0 (init flat_source) None
           (warned flat_end)).
  vm_compute; reflexivity.
Defined.

(** X2. A call reads the random source and never changes it; it consumes
    at least six draws before it returns, and at least six hundred before
    it gives up. *)
Theorem generate_draws fuel w r w' :
  generate_equation_system fuel w = Some (r, w') ->
  rng w' = rng w /\
  (6 + cursor w <= cursor w')%nat /\
  (r = None -> (600 + cursor w <= cursor w')%nat).
Proof.
  intros H.
  destruct (attempts_run _ _ _ _ _ H) as [(k & w1 & p & _ & Hrej & Hp & ->)
                                         | (w1 & Hrej & -> & ->)].
  - apply rejected_world in Hrej as (Hr & _ & Hc).
    apply attempt_world in Hp as (Hr' & _ & Hc').
    repeat split; [congruence | lia | discriminate].
  - apply rejected_world in Hrej as (Hr & _ & Hc).
    unfold max_iter in Hc. cbn [rng cursor warned].
    repeat split; [exact Hr | lia | intros _; lia].
Qed.

Lemma generate_draws_witness :
  generate_equation_system 0 (init scenario_source)
    = Some (Some scenario, scenario_end) /\
  rng scenario_end = rng (init scenario_source) /\
  (6 + cursor (init scenario_source) <= cursor scenario_end)%nat.
Proof.
  split; [vm_compute; reflexivity|].
  destruct (generate_draws 0 (init scenario_source) (Some scenario)
              scenario_end) as (Hr & Hc & _);
    [vm_compute; reflexivity | split; [exact Hr | exact Hc]].
Defined.

Lemma redraw_e_done fuel d e w :
  (d =? 0) && (e =? 0) = false -> redraw_e fuel d e w = Some (e, w).
Proof.
  intros Hc. rewrite redraw_e_as_a. apply redraw_a_done.
  rewrite andb_comm. exact Hc.
Qed.

(** X3. When the first four draws of a call have a nonzero determinant,
    nothing is redrawn: the call returns at its first pass, after six draws,
    the problem made of these coefficients and of the next two draws as
    solution. *)
Theorem generate_first_pass fuel w :
  draw (-5) 5 w 0 * draw (-5) 5 w 3 - draw (-5) 5 w 1 * draw (-5) 5 w 2 <> 0 ->
  generate_equation_system fuel w =
  Some (Some {| eq1_coeffs := (draw (-5) 5 w 0, draw (-5) 5 w 1);
                eq1_const := draw (-5) 5 w 0 * draw (-10) 10 w 4
                             + draw (-5) 5 w 1 * draw (-10) 10 w 5;
                eq2_coeffs := (draw (-5) 5 w 2, draw (-5) 5 w 3);
                eq2_const := draw (-5) 5 w 2 * draw (-10) 10 w 4
                             + draw (-5) 5 w 3 * draw (-10) 10 w 5;
                solution_x := draw (-10) 10 w 4;
                solution_y := draw (-10) 10 w 5 |},
        skip 6 w).
Proof.
  intros Hdet.
  assert (Hab : (draw (-5) 5 w 0 =? 0) && (draw (-5) 5 w 1 =? 0) = false).
  { apply andb_false_iff.
    destruct (Z.eqb_spec (draw (-5) 5 w 0) 0) as [E|]; [|left; reflexivity].
    destruct (Z.eqb_spec (draw (-5) 5 w 1) 0) as [E'|]; [|right; reflexivity].
    rewrite E, E' in Hdet. lia. }
  assert (Hde : (draw (-5) 5 w 2 =? 0) && (draw (-5) 5 w 3 =? 0) = false).
  { apply andb_false_iff.
    destruct (Z.eqb_spec (draw (-5) 5 w 2) 0) as [E|]; [|left; reflexivity].
    destruct (Z.eqb_spec (draw (-5) 5 w 3) 0) as [E'|]; [|right; reflexivity].
    rewrite E, E' in Hdet. lia. }
  unfold generate_equation_system, max_iter.
  change (attempts 100 fuel w)
    with (bind (attempt fuel)
               (fun r => match r with
                         | Some p => ret (Some p)
                         | None => attempts 99 fuel
                         end) w).
  match goal with
  | |- _ = Some (Some ?p, ?w1) =>
      assert (Hpass : attempt fuel w = Some (Some p, w1))
  end.
  { unfold attempt.
    rewrite 4 (bind_eq _ _ _ _ _ (randint_eq _ _ _)).
    rewrite (bind_eq _ _ _ _ _ (redraw_a_done fuel _ _ _ Hab)).
    rewrite (bind_eq _ _ _ _ _ (redraw_e_done fuel _ _ _ Hde)).
    rewrite 2 (bind_eq _ _ _ _ _ (randint_eq _ _ _)).
    cbv zeta.
    replace (negb (_ =? 0)) with true
      by (symmetry; apply negb_true_iff, Z.eqb_neq; exact Hdet).
    reflexivity. }
  rewrite (bind_eq _ _ _ _ _ Hpass). reflexivity.
Qed.

Lemma generate_first_pass_witness :
  draw (-5) 5 (init scenario_source) 0 * draw (-5) 5 (init scenario_source) 3
  - draw (-5) 5 (init scenario_source) 1 * draw (-5) 5 (init scenario_source) 2
    <> 0 /\
  generate_equation_system 0 (init scenario_source)
    = Some (Some scenario, scenario_end).
Proof.
  split; [vm_compute; discriminate|].
  apply (generate_first_pass 0 (init scenario_source)).
  vm_compute; discriminate.
Defined.

(** X4. The constants shown on the right of the two equations of a
    generated problem lie in [-100, 100]. *)
Theorem generated_constants_bounded fuel w p w' :
  generate_equation_system fuel w = Some (Some p, w') ->
  -100 <= eq1_const p <= 100 /\ -100 <= eq2_const p <= 100.
Proof.
  intros H. destruct (generated_drawn _ _ _ _ H)
    as [Ha Hb Hd He Hx Hy _ _ [H1 H2] _].
  unfold coefficient, solution_value in *. rewrite <- H1, <- H2.
  split; nia.
Qed.

Lemma generated_constants_bounded_witness :
  generate_equation_system 0 (init scenario_source)
    = Some (Some scenario, scenario_end) /\
  (-100 <= 11 <= 100 /\ -100 <= 3 <= 100).
Proof.
  split; [vm_compute; reflexivity|].
  apply (generated_constants_bounded 0 (init scenario_source) scenario
           scenario_end).
  vm_compute; reflexivity.
Defined.

(** X5. The check left in comments in the source always holds for a
    generated problem: the numerators of Cramer's rule are the determinant
    times the stored solution, so both remainders by the determinant are
    zero and the quotients are the stored solution. *)
Theorem generated_cramer fuel w p w' :
  generate_equation_system fuel w = Some (Some p, w') ->
  let num_x := eq1_const p * snd (eq2_coeffs p)
               - snd (eq1_coeffs p) * eq2_const p in
  let num_y := fst (eq1_coeffs p) * eq2_const p
               - eq1_const p * fst (eq2_coeffs p) in
  (num_x mod determinant_of p = 0 /\ num_y mod determinant_of p = 0) /\
  (num_x / determinant_of p = solution_x p /\
   num_y / determinant_of p = solution_y p).
Proof.
  intros H. destruct (generated_drawn _ _ _ _ H)
    as [_ _ _ _ _ _ _ _ [H1 H2] Hdet].
  cbv zeta. rewrite <- H1, <- H2. unfold determinant_of in *.
  set (det := fst (eq1_coeffs p) * snd (eq2_coeffs p)
              - snd (eq1_coeffs p) * fst (eq2_coeffs p)) in *.
  replace ((fst (eq1_coeffs p) * solution_x p
            + snd (eq1_coeffs p) * solution_y p) * snd (eq2_coeffs p)
           - snd (eq1_coeffs p)
             * (fst (eq2_coeffs p) * solution_x p
                + snd (eq2_coeffs p) * solution_y p))
    with (solution_x p * det) by (unfold det; ring).
  replace (fst (eq1_coeffs p)
           * (fst (eq2_coeffs p) * solution_x p
              + snd (eq2_coeffs p) * solution_y p)
           - (fst (eq1_coeffs p) * solution_x p
              + snd (eq1_coeffs p) * solution_y p) * fst (eq2_coeffs p))
    with (solution_y p * det) by (unfold det; ring).
  rewrite !Z.mod_mul, !Z.div_mul by exact Hdet.
  repeat split.
Qed.

Lemma generated_cramer_witness :
  generate_equation_system 0 (init scenario_source)
    = Some (Some scenario, scenario_end) /\
  ((11 * -1 - 3 * 3) / (2 * -1 - 3 * 1) = 4 /\
   (2 * 3 - 11 * 1) / (2 * -1 - 3 * 1) = 1).
Proof.
  split; [vm_compute; reflexivity|].
  apply (generated_cramer 0 (init scenario_source) scenario scenario_end).
  vm_compute; reflexivity.
Defined.

(** X6. When both coefficients of the first equation are zero, the repair
    loop returns the first redraw that is not zero, and has consumed the
    draws up to it and no more. *)
Theorem redraw_a_first_nonzero k : forall fuel w,
  (forall i, (i < k)%nat -> draw (-5) 5 w i = 0) ->
  draw (-5) 5 w k <> 0 ->
  (k < fuel)%nat ->
  redraw_a fuel 0 0 w = Some (draw (-5) 5 w k, skip (S k) w).
Proof.
  induction k as [|k IH]; intros [|fuel] w Hz Hnz Hf; try lia;
    cbn [redraw_a Z.eqb andb];
    rewrite (bind_eq _ _ _ _ _ (randint_eq _ _ _)).
  - rewrite redraw_a_done; [reflexivity|].
    apply andb_false_iff. left. apply Z.eqb_neq. exact Hnz.
  - change (-5 + rng w (cursor w) mod (5 - -5 + 1)) with (draw (-5) 5 w 0).
    rewrite (Hz O) by lia.
    rewrite (IH fuel (advance w)).
    + unfold draw, skip. cbn [rng cursor warnings advance].
      rewrite <- !plus_n_Sm. reflexivity.
    + intros i Hi. specialize (Hz (S i) ltac:(lia)).
      unfold draw in *. cbn [rng cursor advance].
      rewrite <- plus_n_Sm. exact Hz.
    + unfold draw in *. cbn [rng cursor advance].
      rewrite <- plus_n_Sm. exact Hnz.
    + lia.
Qed.

Lemma redraw_a_first_nonzero_witness :
  (forall i, (i < 2)%nat -> draw (-5) 5 (init late_source) i = 0) /\
  draw (-5) 5 (init late_source) 2 <> 0 /\
  (2 < 3)%nat /\
  redraw_a 3 0 0 (init late_source) = Some (2, skip 3 (init late_source)).
Proof.
  assert (Hz : forall i, (i < 2)%nat -> draw (-5) 5 (init late_source) i = 0).
  { intros [|[|i]] Hi; [reflexivity | reflexivity | lia]. }
  split; [exact Hz|]. split; [vm_compute; discriminate|]. split; [lia|].
  apply (redraw_a_first_nonzero 2 3 (init late_source) Hz);
    [vm_compute; discriminate | lia].
Defined.

(** ** The judgment, further *)

Lemma in_integers_upto bound k :
  - Z.of_nat bound <= k <= Z.of_nat bound -> In k (integers_upto bound).
Proof.
  intros Hk. unfold integers_upto. apply in_map_iff.
  exists (Z.to_nat (k + Z.of_nat bound)). split; [lia|].
  apply in_seq. lia.
Qed.

(** X7. With a generated problem stored the handler raises nothing,
    whatever the two texts and whatever [float] makes of them: it stores a
    result, of one of the three kinds that the page knows how to show. *)
Theorem judgment_always_answers f prob x y :
  solution_value (solution_x prob) -> solution_value (solution_y prob) ->
  exists r, judgment f (Some prob) x y = Ok r /\
            (type r = "success" \/ type r = "error" \/ type r = "warning")%string.
Proof.
  intros Hsx Hsy. unfold judgment, judgment_body, to_float, close_to.
  destruct (blank x || blank y).
  { exists enter_both. split; [reflexivity | right; right; reflexivity]. }
  destruct (f x) as [ux|]; simpl;
    [|exists enter_numbers; split; [reflexivity | right; left; reflexivity]].
  destruct (f y) as [uy|]; simpl;
    [|exists enter_numbers; split; [reflexivity | right; left; reflexivity]].
  rewrite (float_of_int_small _ Hsx), (float_of_int_small _ Hsy). simpl.
  destruct (PrimFloat.ltb _ tolerance); simpl;
    [|exists incorrect; split; [reflexivity | right; left; reflexivity]].
  destruct (PrimFloat.ltb _ tolerance).
  - exists (correct prob). split; [reflexivity | left; reflexivity].
  - exists incorrect. split; [reflexivity | right; left; reflexivity].
Qed.

Lemma judgment_always_answers_witness :
  solution_value (solution_x scenario) /\
  solution_value (solution_y scenario) /\
  exists r, judgment decimal.float_of_str (Some scenario) "nan" "1" = Ok r /\
            (type r = "success" \/ type r = "error" \/ type r = "warning")%string.
Proof.
  split; [vm_compute; split; discriminate|].
  split; [vm_compute; split; discriminate|].
  apply (judgment_always_answers decimal.float_of_str scenario "nan" "1");
    vm_compute; split; discriminate.
Defined.

(** X8. With no problem stored the name [prob] is unbound: the handler
    raises [NameError], which its [except] clause does not catch, exactly
    when both fields are filled and both are read as numbers. *)
Theorem judgment_without_problem f x y :
  judgment f None x y = Raise NameError <->
  x <> EmptyString /\ y <> EmptyString /\ f x <> None /\ f y <> None.
Proof.
  unfold judgment, judgment_body, to_float.
  destruct x as [|cx x]; simpl.
  { split; [discriminate | intros (H & _); congruence]. }
  destruct y as [|cy y]; simpl.
  { split; [discriminate | intros (_ & H & _); congruence]. }
  destruct (f (String cx x)) as [ux|]; simpl.
  - destruct (f (String cy y)) as [uy|]; simpl.
    + split; [intros _; repeat split; discriminate | reflexivity].
    + split; [discriminate | intros (_ & _ & _ & H); congruence].
  - split; [discriminate | intros (_ & _ & H & _); congruence].
Qed.

(** X9. An answer that [float] reads as the two integers of the stored
    solution is accepted. *)
Theorem judgment_accepts_solution f prob x y :
  f EmptyString = None ->
  solution_value (solution_x prob) -> solution_value (solution_y prob) ->
  f x = Some (float_of_Z (solution_x prob)) ->
  f y = Some (float_of_Z (solution_y prob)) ->
  judgment f (Some prob) x y = Ok (correct prob).
Proof.
  intros Hempty Hsx Hsy Hx Hy.
  rewrite (judgment_of_numbers f prob x y _ _ Hempty Hx Hy Hsx Hsy).
  rewrite (exact_answer_within_tolerance _ Hsx),
          (exact_answer_within_tolerance _ Hsy).
  reflexivity.
Qed.

Lemma judgment_accepts_solution_witness :
  decimal.float_of_str EmptyString = None /\
  solution_value (solution_x scenario) /\
  solution_value (solution_y scenario) /\
  decimal.float_of_str "4.0" = Some (float_of_Z (solution_x scenario)) /\
  decimal.float_of_str "+1" = Some (float_of_Z (solution_y scenario)) /\
  judgment decimal.float_of_str (Some scenario) "4.0" "+1"
    = Ok (correct scenario).
Proof.
  repeat (split; [vm_compute; first [reflexivity | split; discriminate]|]).
  apply (judgment_accepts_solution decimal.float_of_str scenario "4.0" "+1");
    vm_compute; first [reflexivity | split; discriminate].
Defined.

Lemma never_near_non_finite n :
  solution_value n ->
  PrimFloat.ltb (PrimFloat.abs (PrimFloat.sub nan (float_of_Z n))) tolerance
    = false /\
  PrimFloat.ltb (PrimFloat.abs (PrimFloat.sub infinity (float_of_Z n)))
                tolerance = false /\
  PrimFloat.ltb (PrimFloat.abs (PrimFloat.sub neg_infinity (float_of_Z n)))
                tolerance = false.
Proof.
  revert n. apply over_solution_values.
  repeat (constructor; [vm_compute; repeat split|]). constructor.
Qed.

(** X10. [float] reads more than decimal numerals.  An answer read as a
    NaN or as an infinity, in either field, is a number for the handler: it
    is judged incorrect, not refused as invalid. *)
Theorem judgment_rejects_non_finite f prob x y ux uy :
  f EmptyString = None ->
  f x = Some ux -> f y = Some uy ->
  solution_value (solution_x prob) -> solution_value (solution_y prob) ->
  In ux [nan; infinity; neg_infinity] \/ In uy [nan; infinity; neg_infinity] ->
  judgment f (Some prob) x y = Ok incorrect.
Proof.
  intros Hempty Hx Hy Hsx Hsy Hnf.
  rewrite (judgment_of_numbers f prob x y ux uy Hempty Hx Hy Hsx Hsy).
  destruct (never_near_non_finite _ Hsx) as (Hx1 & Hx2 & Hx3).
  destruct (never_near_non_finite _ Hsy) as (Hy1 & Hy2 & Hy3).
  destruct Hnf as [[<- | [<- | [<- | []]]] | [<- | [<- | [<- | []]]]];
    rewrite ?Hx1, ?Hx2, ?Hx3, ?Hy1, ?Hy2, ?Hy3, ?andb_false_r; reflexivity.
Qed.

Lemma judgment_rejects_non_finite_witness :
  float_with_inf EmptyString = None /\
  float_with_inf "inf" = Some infinity /\
  float_with_inf "1" = Some 1%float /\
  solution_value (solution_x scenario) /\
  solution_value (solution_y scenario) /\
  judgment float_with_inf (Some scenario) "inf" "1" = Ok incorrect.
Proof.
  repeat (split; [vm_compute; first [reflexivity | split; discriminate]|]).
  apply (judgment_rejects_non_finite float_with_inf scenario "inf" "1"
           infinity 1%float);
    try (vm_compute; first [reflexivity | split; discriminate]).
  left. right. left. reflexivity.
Defined.

(** The table behind X11, checked by computation: no integer of
    [-1000, 1000] other than [n] is within tolerance of [n]. *)
Lemma integers_apart :
  forallb (fun n =>
    forallb (fun k =>
      (k =? n)
      || negb (PrimFloat.ltb
                 (PrimFloat.abs (PrimFloat.sub (float_of_Z k) (float_of_Z n)))
                 tolerance))
      (integers_upto 1000))
    (integers_upto 10) = true.
Proof. vm_compute. reflexivity. Qed.

Lemma integer_not_near n k :
  solution_value n -> -1000 <= k <= 1000 -> k <> n ->
  PrimFloat.ltb (PrimFloat.abs (PrimFloat.sub (float_of_Z k) (float_of_Z n)))
                tolerance = false.
Proof.
  intros Hn Hk Hne. pose proof integers_apart as T.
  rewrite forallb_forall in T.
  specialize (T n (in_integers_upto 10 n Hn)).
  rewrite forallb_forall in T.
  specialize (T k (in_integers_upto 1000 k Hk)).
  apply orb_true_iff in T as [T | T].
  - apply Z.eqb_eq in T. contradiction.
  - apply negb_true_iff in T. exact T.
Qed.

(** X11. An answer in which either field is read as an integer of
    [-1000, 1000] other than the solution component it is compared with is
    never accepted, whatever the other field holds: the stored result is
    not of type [success], and it is the generic error when the other field
    is read as a number too. *)
Theorem judgment_rejects_other_integer f prob x y k :
  f EmptyString = None ->
  solution_value (solution_x prob) -> solution_value (solution_y prob) ->
  -1000 <= k <= 1000 ->
  (f x = Some (float_of_Z k) /\ k <> solution_x prob) \/
  (f y = Some (float_of_Z k) /\ k <> solution_y prob) ->
  exists r,
    judgment f (Some prob) x y = Ok r /\
    type r <> "success"%string /\
    (f x <> None -> f y <> None -> r = incorrect).
Proof.
  intros Hempty Hsx Hsy Hk Hwrong.
  destruct (blank x || blank y) eqn:Hb.
  { exists enter_both. split; [|split; [discriminate|]].
    - unfold judgment, judgment_body. rewrite Hb. reflexivity.
    - intros Hfx Hfy. apply orb_true_iff in Hb as [Hb | Hb];
        apply blank_iff in Hb; subst; contradiction. }
  apply orb_false_iff in Hb as [Hbx Hby].
  destruct (f x) as [ux|] eqn:Hx.
  2:{ exists enter_numbers. split; [|split; [discriminate|]].
      - unfold judgment, judgment_body, to_float.
        rewrite Hbx, Hby, Hx. reflexivity.
      - intros Hfx. contradiction. }
  destruct (f y) as [uy|] eqn:Hy.
  2:{ exists enter_numbers. split; [|split; [discriminate|]].
      - unfold judgment, judgment_body, to_float.
        rewrite Hbx, Hby, Hx, Hy. reflexivity.
      - intros _ Hfy. contradiction. }
  exists incorrect. split; [|split; [discriminate | reflexivity]].
  rewrite (judgment_of_numbers f prob x y ux uy Hempty Hx Hy Hsx Hsy).
  destruct Hwrong as [[[= ->] Hne] | [[= ->] Hne]].
  - rewrite (integer_not_near _ _ Hsx Hk Hne). reflexivity.
  - rewrite (integer_not_near _ _ Hsy Hk Hne), andb_false_r. reflexivity.
Qed.

Lemma judgment_rejects_other_integer_witness :
  decimal.float_of_str EmptyString = None /\
  solution_value (solution_x scenario) /\
  solution_value (solution_y scenario) /\
  -1000 <= 5 <= 1000 /\
  decimal.float_of_str "5" = Some (float_of_Z 5) /\
  5 <> solution_x scenario /\
  exists r,
    judgment decimal.float_of_str (Some scenario) "5" "abc" = Ok r /\
    type r <> "success"%string /\
    (decimal.float_of_str "5" <> None ->
     decimal.float_of_str "abc" <> None -> r = incorrect).
Proof.
  repeat (split; [vm_compute; first [reflexivity | split; discriminate
                                    | discriminate]|]).
  apply (judgment_rejects_other_integer decimal.float_of_str scenario
           "5" "abc" 5);
    try (vm_compute; first [reflexivity | split; discriminate]).
  left. split; [vm_compute; reflexivity | vm_compute; discriminate].
Defined.

(** ** The page script *)

Lemma pbind_Some {A B} (m : P A) (k : A -> P B) s o s2 :
  pbind m k s = Some (o, s2) ->
  (exists a s1, m s = Some (Next a, s1) /\ k a s1 = Some (o, s2)) \/
  (exists h, m s = Some (Halt h, s2) /\ o = Halt h).
Proof.
  unfold pbind. destruct (m s) as [[[a | h] s1]|]; [| |discriminate].
  - intros H. left. exists a, s1. split; [reflexivity | exact H].
  - intros H. injection H as <- <-. right. exists h. split; reflexivity.
Qed.

Lemma pbind_next {A B} (m : P A) (k : A -> P B) s a s1 :
  m s = Some (Next a, s1) -> pbind m k s = k a s1.
Proof. unfold pbind. intros ->. reflexivity. Qed.

Lemma pbind_halt {A B} (m : P A) (k : A -> P B) s h s1 :
  m s = Some (Halt h, s1) -> pbind m k s = Some (Halt h, s1).
Proof. unfold pbind. intros ->. reflexivity. Qed.

(** *** Pieces that keep the keys *)

Lemma safe_bind {A B} (m : P A) (k : A -> P B) :
  safe m -> (forall a, safe (k a)) -> safe (pbind m k).
Proof.
  intros Hm Hk s o s2 Hs H.
  apply pbind_Some in H as [(a & s1 & H1 & H2) | (h & H1 & ->)].
  - destruct (Hm _ _ _ Hs H1) as [Hs1 _]. exact (Hk a _ _ _ Hs1 H2).
  - destruct (Hm _ _ _ Hs H1) as [Hs2 Hh]. split; [exact Hs2|].
    intros key [= E]. apply (Hh key). rewrite E. reflexivity.
Qed.

Lemma safe_pret {A} (a : A) : safe (pret a).
Proof.
  intros s o s' Hs H. injection H as <- <-. split; [exact Hs | discriminate].
Qed.

Lemma safe_emit e : safe (emit e).
Proof.
  intros s o s' Hs H. injection H as <- <-. split; [exact Hs | discriminate].
Qed.

Lemma safe_lift {A} (m : M A) : safe (lift m).
Proof.
  intros s o s' Hs H. unfold lift in H.
  destruct (m (env s)) as [[a w']|]; [|discriminate].
  injection H as <- <-. split; [exact Hs | discriminate].
Qed.

Lemma safe_stop {A} h :
  (forall k, h <> AttributeError k) -> safe (@stop A h).
Proof.
  intros Hh s o s' Hs H. injection H as <- <-.
  split; [exact Hs | intros k [= E]; exact (Hh k E)].
Qed.

Lemma safe_update f :
  (forall ss, keys_present ss -> keys_present (f ss)) -> safe (update f).
Proof.
  intros Hf s o s' Hs H. injection H as <- <-.
  split; [exact (Hf _ Hs) | discriminate].
Qed.

Lemma safe_set_problem v : safe (set_problem v).
Proof.
  apply safe_update. intros ss (H1 & H2 & H3 & H4).
  repeat split; simpl; [discriminate | exact H2 | exact H3 | exact H4].
Qed.

Lemma safe_set_result v : safe (set_result v).
Proof.
  apply safe_update. intros ss (H1 & H2 & H3 & H4).
  repeat split; simpl; [exact H1 | discriminate | exact H3 | exact H4].
Qed.

Lemma safe_set_user_x v : safe (set_user_x v).
Proof.
  apply safe_update. intros ss (H1 & H2 & H3 & H4).
  repeat split; simpl; [exact H1 | exact H2 | discriminate | exact H4].
Qed.

Lemma safe_set_user_y v : safe (set_user_y v).
Proof.
  apply safe_update. intros ss (H1 & H2 & H3 & H4).
  repeat split; simpl; [exact H1 | exact H2 | exact H3 | discriminate].
Qed.

Lemma safe_attribute {A} key (get : session_state -> option A) :
  (forall ss, keys_present ss -> get ss <> None) -> safe (attribute key get).
Proof.
  intros Hget s o s' Hs H. unfold attribute in H.
  specialize (Hget _ Hs). destruct (get (session s)); [|contradiction].
  injection H as <- <-. split; [exact Hs | discriminate].
Qed.

Create HintDb safe.

#[local] Hint Resolve safe_pret safe_emit safe_lift safe_set_problem
  safe_set_result safe_set_user_x safe_set_user_y : safe.

Ltac safe_steps :=
  repeat first
    [ apply safe_bind; [|intros ?]
    | apply safe_attribute; intros ? (? & ? & ? & ?); assumption
    | apply safe_stop; discriminate
    | solve [auto with safe] ].

Lemma safe_show_problem : safe show_problem.
Proof. unfold show_problem. safe_steps. destruct a; safe_steps. Qed.

Lemma safe_answer_inputs : safe answer_inputs.
Proof. unfold answer_inputs. safe_steps. Qed.

Lemma safe_judge_button f prob w : safe (judge_button f prob w).
Proof.
  unfold judge_button. safe_steps.
  destruct (judge_pressed w); safe_steps.
  destruct (judgment f prob _ _); safe_steps.
Qed.

Lemma safe_new_button fuel w : safe (new_button fuel w).
Proof.
  unfold new_button. safe_steps. destruct (new_pressed w); safe_steps.
Qed.

Lemma safe_show_result : safe show_result.
Proof.
  unfold show_result. safe_steps. destruct a as [r|]; safe_steps.
  destruct (type r =? "success")%string; safe_steps.
  destruct (type r =? "error")%string; safe_steps.
  destruct (type r =? "warning")%string; safe_steps.
Qed.

Lemma initialise_sets_keys fuel s o s' :
  coherent (session s) ->
  initialise fuel s = Some (o, s') ->
  o = Next tt /\ keys_present (session s').
Proof.
  intros Hco. unfold initialise.
  destruct (problem (session s)) as [[p|]|] eqn:Hp.
  - intros H. injection H as <- <-. split; [reflexivity|].
    apply Hco. exists p. exact Hp.
  - unfold fresh_problem, pbind, lift.
    destruct (generate_equation_system fuel (env s)) as [[q w']|];
      [|discriminate].
    intros H. injection H as <- <-. split; [reflexivity|].
    repeat split; discriminate.
  - unfold fresh_problem, pbind, lift.
    destruct (generate_equation_system fuel (env s)) as [[q w']|];
      [|discriminate].
    intros H. injection H as <- <-. split; [reflexivity|].
    repeat split; discriminate.
Qed.

Lemma script_keeps_keys f fuel w s o s' :
  coherent (session s) ->
  script f fuel w s = Some (o, s') ->
  keys_present (session s') /\ forall k, o <> Halt (AttributeError k).
Proof.
  intros Hco H. unfold script in H.
  rewrite 3 (pbind_next _ _ _ _ _ eq_refl) in H.
  apply pbind_Some in H as [(a & s1 & H1 & H2) | (h & H1 & ->)].
  - apply initialise_sets_keys in H1; [destruct H1 as [_ Hk] | exact Hco].
    refine (safe_bind show_problem _ safe_show_problem _ _ _ _ Hk H2).
    intros prob.
    apply safe_bind; [apply safe_answer_inputs | intros _].
    apply safe_bind; [apply safe_judge_button | intros _].
    apply safe_bind; [apply safe_new_button | intros _].
    apply safe_bind; [apply safe_show_result | intros _].
    safe_steps.
  - apply initialise_sets_keys in H1; [destruct H1 as [[=] _] | exact Hco].
Qed.

Lemma reachable_coherent f s : reachable f s -> coherent (session s).
Proof.
  induction 1 as [src | fuel w s o s' _ IH H].
  - intros [p [=]].
  - intros _.
    exact (proj1 (script_keeps_keys f fuel w (fresh_page s) o s' IH H)).
Qed.

(** X12. Starting from an empty session, whatever the user types and
    presses and however the runs end, no run of the script fails on a key
    of [st.session_state] that has not been assigned, and every run leaves
    the four keys assigned. *)
Theorem script_never_misses_a_key f fuel w s o s' :
  reachable f s ->
  script f fuel w (fresh_page s) = Some (o, s') ->
  (forall k, o <> Halt (AttributeError k)) /\ keys_present (session s').
Proof.
  intros Hr H.
  destruct (script_keeps_keys f fuel w (fresh_page s) o s'
              (reachable_coherent f s Hr) H) as [Hk Ho].
  split; [exact Ho | exact Hk].
Qed.

Lemma script_never_misses_a_key_witness :
  reachable decimal.float_of_str (start scenario_source) /\
  exists o s',
    script decimal.float_of_str 0 idle (fresh_page (start scenario_source))
      = Some (o, s') /\
    (forall k, o <> Halt (AttributeError k)) /\ keys_present (session s').
Proof.
  split; [constructor|].
  eexists. eexists.
  match goal with
  | |- ?run = Some (?o, ?s') /\ _ =>
      assert (Hrun : run = Some (o, s')) by (vm_compute; reflexivity)
  end.
  split; [exact Hrun|].
  apply (script_never_misses_a_key decimal.float_of_str 0 idle
           (start scenario_source) _ _ (reach_start _ _) Hrun).
Defined.

(** *** Pieces that leave the problem and the generator alone *)

Lemma quiet_bind {A B} (m : P A) (k : A -> P B) :
  quiet m -> (forall a, quiet (k a)) -> quiet (pbind m k).
Proof.
  intros Hm Hk s o s2 H.
  apply pbind_Some in H as [(a & s1 & H1 & H2) | (h & H1 & ->)].
  - destruct (Hm _ _ _ H1) as (E1 & E2 & E3).
    destruct (Hk a _ _ _ H2) as (F1 & F2 & F3).
    repeat split; congruence.
  - exact (Hm _ _ _ H1).
Qed.

Lemma quiet_pret {A} (a : A) : quiet (pret a).
Proof. intros s o s' H. injection H as <- <-. repeat split. Qed.

Lemma quiet_emit e : quiet (emit e).
Proof. intros s o s' H. injection H as <- <-. repeat split. Qed.

Lemma quiet_stop {A} h : quiet (@stop A h).
Proof. intros s o s' H. injection H as <- <-. repeat split. Qed.

Lemma quiet_attribute {A} key (get : session_state -> option A) :
  quiet (attribute key get).
Proof.
  intros s o s' H. unfold attribute in H.
  destruct (get (session s)); injection H as <- <-; repeat split.
Qed.

Lemma quiet_set_result v : quiet (set_result v).
Proof. intros s o s' H. injection H as <- <-. repeat split. Qed.

Lemma quiet_set_user_x v : quiet (set_user_x v).
Proof. intros s o s' H. injection H as <- <-. repeat split. Qed.

Lemma quiet_set_user_y v : quiet (set_user_y v).
Proof. intros s o s' H. injection H as <- <-. repeat split. Qed.

Lemma quiet_warning msg : quiet (lift (st.warning msg)).
Proof. intros s o s' H. injection H as <- <-. repeat split. Qed.

Create HintDb quiet.

#[local] Hint Resolve quiet_pret quiet_emit quiet_stop quiet_attribute
  quiet_set_result quiet_set_user_x quiet_set_user_y quiet_warning : quiet.

Ltac quiet_steps :=
  repeat first
    [ apply quiet_bind; [|intros ?]
    | solve [auto with quiet] ].

Lemma quiet_show_problem : quiet show_problem.
Proof. unfold show_problem. quiet_steps. destruct a; quiet_steps. Qed.

Lemma quiet_answer_inputs : quiet answer_inputs.
Proof. unfold answer_inputs. quiet_steps. Qed.

Lemma quiet_judge_button f prob w : quiet (judge_button f prob w).
Proof.
  unfold judge_button. quiet_steps.
  destruct (judge_pressed w); quiet_steps.
  destruct (judgment f prob _ _); quiet_steps.
Qed.

Lemma quiet_show_result : quiet show_result.
Proof.
  unfold show_result. quiet_steps. destruct a as [r|]; quiet_steps.
  destruct (type r =? "success")%string; quiet_steps.
  destruct (type r =? "error")%string; quiet_steps.
  destruct (type r =? "warning")%string; quiet_steps.
Qed.

(** X13. A stored problem stays: in a run in which the new-problem button
    is not pressed, whatever else happens and however the run ends, the
    problem is the same afterwards and no random draw has been made. *)
Theorem script_keeps_problem f fuel w s o s' p :
  problem (session s) = Some (Some p) ->
  new_pressed w = false ->
  script f fuel w s = Some (o, s') ->
  problem (session s') = Some (Some p) /\
  rng (env s') = rng (env s) /\ cursor (env s') = cursor (env s).
Proof.
  intros Hp Hnew H.
  unfold script in H.
  rewrite 3 (pbind_next _ _ _ _ _ eq_refl) in H.
  rewrite (pbind_next (initialise fuel) _ _ tt _) in H
    by (unfold initialise; cbn [session]; rewrite Hp; reflexivity).
  assert (Q : quiet (prob <<- show_problem ;;
                     answer_inputs >>> judge_button f prob w >>>
                     new_button fuel w >>> show_result >>>
                     emit (Markdown "---") >>>
                     emit (Text "Developed with Streamlit by Google Gemini"))).
  { apply quiet_bind; [apply quiet_show_problem | intros prob].
    apply quiet_bind; [apply quiet_answer_inputs | intros _].
    apply quiet_bind; [apply quiet_judge_button | intros _].
    apply quiet_bind;
      [unfold new_button; rewrite Hnew; quiet_steps | intros _].
    apply quiet_bind; [apply quiet_show_result | intros _].
    quiet_steps. }
  destruct (Q _ _ _ H) as (E1 & E2 & E3). cbn [session env] in *.
  rewrite E1. repeat split; assumption.
Qed.

Lemma script_keeps_problem_witness :
  problem (session playing) = Some (Some scenario) /\
  new_pressed (answer "5" "1") = false /\
  exists o s',
    script decimal.float_of_str 0 (answer "5" "1") playing = Some (o, s') /\
    problem (session s') = Some (Some scenario) /\
    rng (env s') = rng (env playing) /\
    cursor (env s') = cursor (env playing).
Proof.
  split; [reflexivity|]. split; [reflexivity|].
  eexists. eexists.
  match goal with
  | |- ?run = Some (?o, ?s') /\ _ =>
      assert (Hrun : run = Some (o, s')) by (vm_compute; reflexivity)
  end.
  split; [exact Hrun|].
  apply (script_keeps_problem decimal.float_of_str 0 (answer "5" "1") playing
           _ _ scenario eq_refl eq_refl Hrun).
Defined.

Ltac run_script :=
  cbv beta iota zeta delta
    [script initialise fresh_problem show_problem answer_inputs judge_button
     new_button show_result attribute emit pbind pret stop update lift
     set_problem set_result set_user_x set_user_y
     session env page problem result user_x user_y st.warning].

(** X14. Pressing the judgment button with a problem stored: when the
    handler's [try] statement produces a result, the run goes to its end,
    the result and the two typed texts are stored, the problem is left as
    it was, and the message is shown by the call of the result's kind. *)
Theorem judge_press_stores f fuel w s p r :
  problem (session s) = Some (Some p) ->
  keys_present (session s) ->
  judge_pressed w = true -> new_pressed w = false ->
  judgment f (Some p) (user_x_input w) (user_y_input w) = Ok r ->
  exists s',
    script f fuel w s = Some (Next tt, s') /\
    session s' = {| problem := Some (Some p); result := Some (Some r);
                    user_x := Some (user_x_input w);
                    user_y := Some (user_y_input w) |} /\
    shown r s'.
Proof.
  destruct s as [e [pr re ux uy] pg]. cbn [session problem].
  intros -> (_ & Hre & Hux & Huy) Hj Hn Hr. cbn in Hre, Hux, Huy.
  destruct re as [re|]; [|contradiction].
  destruct ux as [ux|]; [|contradiction].
  destruct uy as [uy|]; [|contradiction].
  run_script. rewrite Hj, Hr, Hn. run_script.
  unfold shown.
  destruct (type r =? "success")%string eqn:E1;
    [|destruct (type r =? "error")%string eqn:E2;
      [|destruct (type r =? "warning")%string eqn:E3]];
    run_script; eexists; (split; [reflexivity|]); (split; [reflexivity|]);
    cbn [page env warnings];
    repeat split; intros Ht; rewrite Ht in *; try discriminate;
    rewrite ?in_app_iff; simpl; tauto.
Qed.

Lemma judge_press_stores_witness :
  problem (session playing) = Some (Some scenario) /\
  keys_present (session playing) /\
  judgment decimal.float_of_str (Some scenario) "4" "1" = Ok (correct scenario) /\
  exists s',
    script decimal.float_of_str 0 (answer "4" "1") playing = Some (Next tt, s') /\
    session s' = {| problem := Some (Some scenario);
                    result := Some (Some (correct scenario));
                    user_x := Some "4"%string; user_y := Some "1"%string |} /\
    shown (correct scenario) s'.
Proof.
  split; [reflexivity|].
  split; [repeat split; discriminate|].
  split; [vm_compute; reflexivity|].
  apply (judge_press_stores decimal.float_of_str 0 (answer "4" "1") playing
           scenario (correct scenario));
    [reflexivity | repeat split; discriminate | reflexivity | reflexivity
    | vm_compute; reflexivity].
Defined.

(** X15. Pressing the new-problem button: the outcome of a fresh call of
    the generator replaces the stored problem, the result and the two kept
    texts are reset, and the run stops for a rerun before any result is
    shown. *)
Theorem new_press_replaces f fuel w s p q w' :
  problem (session s) = Some (Some p) ->
  keys_present (session s) ->
  judge_pressed w = false -> new_pressed w = true ->
  generate_equation_system fuel (env s) = Some (q, w') ->
  exists s',
    script f fuel w (fresh_page s) = Some (Halt Rerun, s') /\
    session s' = {| problem := Some q; result := Some None;
                    user_x := Some ""%string; user_y := Some ""%string |} /\
    env s' = w' /\
    forall e, In e (page s') -> ~ is_box e.
Proof.
  destruct s as [e [pr re ux uy] pg]. cbn [session problem env].
  intros -> (_ & Hre & Hux & Huy) Hj Hn Hg. cbn in Hre, Hux, Huy.
  destruct re as [re|]; [|contradiction].
  destruct ux as [ux|]; [|contradiction].
  destruct uy as [uy|]; [|contradiction].
  unfold fresh_page. run_script. rewrite Hj, Hn. run_script.
  rewrite Hg. run_script.
  eexists. split; [reflexivity|]. split; [reflexivity|].
  split; [reflexivity|]. cbn [page].
  intros x Hx. simpl in Hx.
  repeat (destruct Hx as [<- | Hx]; [intros []|]). destruct Hx.
Qed.

Lemma new_press_replaces_witness :
  problem (session playing) = Some (Some scenario) /\
  keys_present (session playing) /\
  generate_equation_system 0 (env playing)
    = Some (Some scenario, skip 6 scenario_end) /\
  exists s',
    script decimal.float_of_str 0 ask_new (fresh_page playing)
      = Some (Halt Rerun, s') /\
    session s' = {| problem := Some (Some scenario); result := Some None;
                    user_x := Some ""%string; user_y := Some ""%string |} /\
    env s' = skip 6 scenario_end /\
    forall e, In e (page s') -> ~ is_box e.
Proof.
  split; [reflexivity|].
  split; [repeat split; discriminate|].
  split; [vm_compute; reflexivity|].
  apply (new_press_replaces decimal.float_of_str 0 ask_new playing scenario
           (Some scenario) (skip 6 scenario_end));
    [reflexivity | repeat split; discriminate | reflexivity | reflexivity
    | vm_compute; reflexivity].
Defined.

(** X16. When no problem is stored and the generator gives up, the run
    stores [None] as the problem with a fresh result and input state, shows
    the error that asks for the new-problem button in place of the
    equations, and goes to its end; the next run calls the generator
    again. *)
Theorem failed_generation_shows_error f fuel w s w' :
  problem (session s) = None \/ problem (session s) = Some None ->
  judge_pressed w = false -> new_pressed w = false ->
  generate_equation_system fuel (env s) = Some (None, w') ->
  exists s',
    script f fuel w (fresh_page s) = Some (Next tt, s') /\
    session s' = nothing_stored /\
    env s' = w' /\
    In (ErrorBox not_generated) (page s') /\
    forall body, ~ In (Latex body) (page s').
Proof.
  destruct s as [e [pr re ux uy] pg]. cbn [session problem env].
  intros Hp Hj Hn Hg.
  destruct Hp as [-> | ->]; unfold fresh_page; run_script; rewrite Hg;
    run_script; rewrite Hj, Hn; run_script;
    (eexists; split; [reflexivity|]; split; [reflexivity|];
     split; [reflexivity|]; cbn [page]; split;
     [simpl; tauto
     |intros body Hin; simpl in Hin;
      repeat (destruct Hin as [[=] | Hin]); destruct Hin]).
Qed.

Lemma failed_generation_shows_error_witness :
  problem (session (start flat_source)) = None /\
  generate_equation_system 0 (env (start flat_source))
    = Some (None, warned flat_end) /\
  exists s',
    script decimal.float_of_str 0 idle (fresh_page (start flat_source))
      = Some (Next tt, s') /\
    session s' = nothing_stored /\
    env s' = warned flat_end /\
    In (ErrorBox not_generated) (page s') /\
    forall body, ~ In (Latex body) (page s').
Proof.
  split; [reflexivity|].
  split; [vm_compute; reflexivity|].
  apply (failed_generation_shows_error decimal.float_of_str 0 idle
           (start flat_source) (warned flat_end));
    [left; reflexivity | reflexivity | reflexivity | vm_compute; reflexivity].
Defined.

(** X17. When no problem is stored, the generator gives up and the
    judgment button is pressed with two texts that [float] reads, the run
    ends on an uncaught [NameError]: no result is stored and the typed texts
    are not kept. *)
Theorem judge_press_without_problem f fuel w s w' :
  problem (session s) = None \/ problem (session s) = Some None ->
  judge_pressed w = true ->
  user_x_input w <> EmptyString -> user_y_input w <> EmptyString ->
  f (user_x_input w) <> None -> f (user_y_input w) <> None ->
  generate_equation_system fuel (env s) = Some (None, w') ->
  exists s',
    script f fuel w (fresh_page s) = Some (Halt (Uncaught NameError), s') /\
    session s' = nothing_stored /\
    env s' = w'.
Proof.
  destruct s as [e [pr re ux uy] pg]. cbn [session problem env].
  intros Hp Hj Hx Hy Hfx Hfy Hg.
  destruct Hp as [-> | ->]; unfold fresh_page; run_script; rewrite Hg;
    run_script; rewrite Hj;
    rewrite (proj2 (judgment_without_problem f _ _))
      by (repeat split; assumption);
    run_script;
    (eexists; split; [reflexivity|]; split; reflexivity).
Qed.

Lemma judge_press_without_problem_witness :
  problem (session (start flat_source)) = None /\
  decimal.float_of_str "4" <> None /\ decimal.float_of_str "1" <> None /\
  generate_equation_system 0 (env (start flat_source))
    = Some (None, warned flat_end) /\
  exists s',
    script decimal.float_of_str 0 (answer "4" "1")
      (fresh_page (start flat_source))
      = Some (Halt (Uncaught NameError), s') /\
    session s' = nothing_stored /\
    env s' = warned flat_end.
Proof.
  split; [reflexivity|].
  split; [vm_compute; discriminate|].
  split; [vm_compute; discriminate|].
  split; [vm_compute; reflexivity|].
  apply (judge_press_without_problem decimal.float_of_str 0 (answer "4" "1")
           (start flat_source) (warned flat_end));
    [left; reflexivity | reflexivity | discriminate | discriminate
    | vm_compute; discriminate | vm_compute; discriminate
    | vm_compute; reflexivity].
Defined.
